(** * NeoCORTEX operator console: ingest staging and live telemetry

    A shallow embedding of the front-end code that stages an ingestion job
    ([IngestView.tsx]: the selection tree helpers [updateNodeChecked] and
    [extractCheckedFiles], the status polling effect and
    [handleStartIngest]) and of the inspector that follows it
    ([ThoughtStream.tsx]: the inspection-frame polling effect), together
    with the properties the specification states about them. *)

From Stdlib Require Import List String Ascii Bool Arith Lia.
Import ListNotations.
Local Open Scope string_scope.
Local Open Scope list_scope.

Set Implicit Arguments.

(** ** Data model ([types.ts]) *)

(** [type: 'folder' | 'file' | 'binary'] *)
Inductive NodeType : Type := folder | file | binary.

Definition NodeType_eqb (a b : NodeType) : bool :=
  match a, b with
  | folder, folder | file, file | binary, binary => true
  | _, _ => false
  end.

(** [interface FileNode].  The optional field [children?: FileNode[]] is an
    [option]: [None] is JavaScript's [undefined], [Some []] the empty array
    (which is truthy). *)
#[local] Unset Elimination Schemes.
Inductive FileNode : Type := mkFileNode {
  name : string;
  path : string;
  rel_path : string;
  type : NodeType;
  checked : bool;
  children : option (list FileNode);
  error : option string
}.
#[local] Set Elimination Schemes.

(** [interface IngestStatus] *)
Record IngestStatus : Type := mkIngestStatus {
  is_running : bool;
  current_file : string;
  progress_percent : nat;
  processed_files : nat;
  total_files : nat;
  log : list string
}.

(** [interface InspectionFrame]; a value of [vector_preview] is a float in
    the source and is kept here as an opaque numeral string. *)
Record InspectionFrame : Type := mkInspectionFrame {
  file_path : string;
  line_number : nat;
  content_snippet : string;
  vector_preview : list string;
  imports : list string;
  timestamp : option string
}.

(** ** The selection tree ([IngestView.tsx], lines 12-45) *)

Module SelectionTree.

(** The inner arrow function of [updateNodeChecked]:
[[
  const updateRecursive = (n, checked) => ({
    ...n, checked,
    children: n.children ? n.children.map(c => updateRecursive(c, checked))
                         : undefined });
]] *)
Fixpoint updateRecursive (n : FileNode) (chk : bool) : FileNode :=
  mkFileNode (name n) (path n) (rel_path n) (type n) chk
    (match children n with
     | Some cs => Some (map (fun c => updateRecursive c chk) cs)
     | None => None
     end)
    (error n).

(** [updateNodeChecked(root, targetPath, newChecked)]: [===] on strings is
    [String.eqb]. *)
Fixpoint updateNodeChecked (root : FileNode) (targetPath : string)
    (newChecked : bool) : FileNode :=
  if path root =? targetPath then updateRecursive root newChecked
  else
    match children root with
    | Some cs =>
        mkFileNode (name root) (path root) (rel_path root) (type root)
          (checked root)
          (Some (map (fun child => updateNodeChecked child targetPath newChecked) cs))
          (error root)
    | None => root
    end.

(** [extractCheckedFiles(node)]: the [forEach] loop that re-assigns
    [files = files.concat(...)] is a left fold of [app]. *)
Fixpoint extractCheckedFiles (node : FileNode) : list string :=
  let files :=
    if NodeType_eqb (type node) file && checked node
    then [rel_path node] else [] in
  match children node with
  | Some cs =>
      fold_left (fun files child => files ++ extractCheckedFiles child) cs files
  | None => files
  end.

(** *** Vocabulary for stating the contract *)

(** Every node of a tree, in depth-first order, a node before its children
    and the children in their order. *)
Fixpoint nodes (t : FileNode) : list FileNode :=
  t :: match children t with
       | Some cs => flat_map nodes cs
       | None => []
       end.

(** A node is addressed by a position: the child indices from the root. *)
Fixpoint node_at (pos : list nat) (t : FileNode) : option FileNode :=
  match pos with
  | [] => Some t
  | i :: pos' =>
      match children t with
      | Some cs =>
          match nth_error cs i with
          | Some c => node_at pos' c
          | None => None
          end
      | None => None
      end
  end.

(** [within p pos t]: the node at [pos], or one of its ancestors, has path
    [p]; that is, the position lies in the subtree of a node named [p]. *)
Fixpoint within (p : string) (pos : list nat) (t : FileNode) : bool :=
  if path t =? p then true
  else
    match pos with
    | [] => false
    | i :: pos' =>
        match children t with
        | Some cs =>
            match nth_error cs i with
            | Some c => within p pos' c
            | None => false
            end
        | None => false
        end
    end.

(** Some node of the tree has path [p]. *)
Definition has_path (p : string) (t : FileNode) : bool :=
  existsb (fun n => path n =? p) (nodes t).

(** The number of children, [None] for [undefined]. *)
Definition arity (n : FileNode) : option nat := option_map (@List.length FileNode) (children n).

(** The fields of a node other than [checked] and the contents of
    [children]: what a toggle may never touch. *)
Definition same_node_data (n n' : FileNode) : Prop :=
  name n' = name n /\ path n' = path n /\ rel_path n' = rel_path n /\
  type n' = type n /\ error n' = error n /\ arity n' = arity n.

(** What [extractCheckedFiles] tests before pushing. *)
Definition selected (n : FileNode) : bool :=
  NodeType_eqb (type n) file && checked n.

(** The specification's [extractSelected], in its words: the [rel_path] of
    every node with kind file and checked, in depth-first order. *)
Definition extractSelected_spec (t : FileNode) : list string :=
  map rel_path (filter selected (nodes t)).

(** *** Induction over trees *)

Section FileNode_induction.
Variable P : FileNode -> Prop.
Hypothesis leaf_case : forall n, children n = None -> P n.
Hypothesis folder_case :
  forall n cs, children n = Some cs -> Forall P cs -> P n.

Fixpoint FileNode_tree_ind (n : FileNode) : P n :=
  match n as n0 return P n0 with
  | mkFileNode nm p rp ty ck ch er =>
      match ch as ch0 return P (mkFileNode nm p rp ty ck ch0 er) with
      | None => leaf_case (mkFileNode nm p rp ty ck None er) eq_refl
      | Some cs =>
          folder_case (mkFileNode nm p rp ty ck (Some cs) er) eq_refl
            ((fix all (l : list FileNode) : Forall P l :=
                match l with
                | [] => Forall_nil P
                | c :: l' => Forall_cons c (FileNode_tree_ind c) (all l')
                end) cs)
      end
  end.
End FileNode_induction.

End SelectionTree.

(** ** The browser: promises, timers and what the page does to the outside *)

Module Browser.

(** A JavaScript [Error]: [String(e)] is [name + ": " + message]. *)
Record JsError : Type := mkJsError { ename : string; message : string }.

Definition Error (m : string) : JsError := mkJsError "Error" m.

Definition error_toString (e : JsError) : string :=
  if ename e =? "" then message e
  else if message e =? "" then ename e
  else ename e ++ ": " ++ message e.

(** A promise once it has settled. *)
Inductive Settled (A : Type) : Type :=
| Resolved (a : A)
| Rejected (e : JsError).
Arguments Resolved {A} a.
Arguments Rejected {A} e.

(** What [fetch] resolves to: [res.ok] and the promise of [res.json()]. *)
Record Response (A : Type) : Type := mkResponse {
  ok : bool;
  json : Settled A
}.

(** [fetch] itself rejects on a network failure. *)
Definition Fetched (A : Type) : Type := Settled (Response A).

(** An interval registered by [setInterval(cb, period)]: its handle, its
    period and the time (ms) at which it fires next. *)
Record Timer : Type := mkTimer { handle : nat; period : nat; due : nat }.

(** The requests of [services/api.ts] that the staging view issues. *)
Inductive Request : Type :=
| GetIngestStatus
| GetInspectionFrames
| ScanPath (path : string)
| ExecuteIngest (dbName rootPath : string) (files : list string)
    (llmModel : string).

(** Everything the page does that is visible from outside it. *)
Inductive Action : Type :=
| Fetch (r : Request)
| Alert (msg : string)
| ConsoleError (msg : string) (e : JsError)
| SetInterval (h : nat) (delay : nat)
| ClearInterval (h : nat).

(** [Array.prototype.slice(-n)]: the last [n] elements, all of them when
    there are fewer. *)
Definition slice_last (A : Type) (n : nat) (l : list A) : list A :=
  skipn (List.length l - n) l.

(** [String.prototype.trim].  A string is the sequence of bytes of its
    UTF-8 encoding, and the characters stripped are the white space and
    line terminators of ECMAScript: U+0009 to U+000D and U+0020 (one
    byte), U+00A0 (two bytes), and U+1680, U+2000 to U+200A, U+2028,
    U+2029, U+202F, U+205F, U+3000 and U+FEFF (three bytes). *)
Definition is_space (c : ascii) : bool :=
  match nat_of_ascii c with
  | 9 | 10 | 11 | 12 | 13 | 32 => true
  | _ => false
  end.

Definition is_space2 (a b : ascii) : bool :=
  Nat.eqb (nat_of_ascii a) 194 && Nat.eqb (nat_of_ascii b) 160.

Definition is_space3 (a b c : ascii) : bool :=
  let x := nat_of_ascii a in
  let y := nat_of_ascii b in
  let z := nat_of_ascii c in
  (Nat.eqb x 225 && Nat.eqb y 154 && Nat.eqb z 128)
  || (Nat.eqb x 226 && Nat.eqb y 128 &&
      ((Nat.leb 128 z && Nat.leb z 138) || Nat.eqb z 168 || Nat.eqb z 169
       || Nat.eqb z 175))
  || (Nat.eqb x 226 && Nat.eqb y 129 && Nat.eqb z 159)
  || (Nat.eqb x 227 && Nat.eqb y 128 && Nat.eqb z 128)
  || (Nat.eqb x 239 && Nat.eqb y 187 && Nat.eqb z 191).

(** The rest of a string after the white-space character it starts with,
    when it starts with one. *)
Definition skipSpace (s : string) : option string :=
  match s with
  | String a r =>
      if is_space a then Some r
      else
        match r with
        | String b r2 =>
            if is_space2 a b then Some r2
            else
              match r2 with
              | String c r3 => if is_space3 a b c then Some r3 else None
              | EmptyString => None
              end
        | EmptyString => None
        end
  | EmptyString => None
  end.

Fixpoint trimStart (s : string) : string :=
  match s with
  | EmptyString => EmptyString
  | String a r =>
      if is_space a then trimStart r
      else
        match r with
        | String b r2 =>
            if is_space2 a b then trimStart r2
            else
              match r2 with
              | String c r3 => if is_space3 a b c then trimStart r3 else s
              | EmptyString => s
              end
        | EmptyString => s
        end
  end.

(** The longest end of the string that is white space throughout is cut
    off: a position from which only white space follows ends the result. *)
Fixpoint trimEnd (s : string) : string :=
  match s with
  | EmptyString => EmptyString
  | String a r =>
      if trimStart (String a r) =? "" then EmptyString
      else String a (trimEnd r)
  end.

Definition trim (s : string) : string := trimEnd (trimStart s).

End Browser.

(** ** The API client ([services/api.ts]) *)

Module Api.
Import Browser.

(** The body of [/ingest/inspection]; the caller tests [data.frames], so
    the field may be missing at run time. *)
Record InspectionBody : Type := mkInspectionBody {
  frames : option (list InspectionFrame)
}.

(** The body of [/ingest/execute]; [detail] is read on an error response. *)
Record IngestBody : Type := mkIngestBody { detail : option string }.

(** [interface TreeResponse]; the caller tests [res.tree]. *)
Record TreeResponse : Type := mkTreeResponse {
  tree : option FileNode;
  tree_error : option string
}.

(** [getIngestStatus]: [res.json()] whatever [res.ok] is. *)
Definition getIngestStatus (res : Fetched IngestStatus) : Settled IngestStatus :=
  match res with
  | Rejected e => Rejected e
  | Resolved r => json r
  end.

(** [getInspectionFrames]: [if (!res.ok) return { frames: [] }]. *)
Definition getInspectionFrames (res : Fetched InspectionBody)
  : Settled InspectionBody :=
  match res with
  | Rejected e => Rejected e
  | Resolved r =>
      if negb (ok r) then Resolved (mkInspectionBody (Some []))
      else json r
  end.

(** [scanPath]: [if (!res.ok) throw new Error('Scan failed')]. *)
Definition scanPath (res : Fetched TreeResponse) : Settled TreeResponse :=
  match res with
  | Rejected e => Rejected e
  | Resolved r =>
      if negb (ok r) then Rejected (Error "Scan failed") else json r
  end.

(** [executeIngest]: on an error response,
    [throw new Error(err.detail || 'Ingest failed')]. *)
Definition executeIngest (res : Fetched IngestBody) : Settled IngestBody :=
  match res with
  | Rejected e => Rejected e
  | Resolved r =>
      if negb (ok r) then
        match json r with
        | Rejected e => Rejected e
        | Resolved err =>
            Rejected (Error (match detail err with
                             | Some d => if d =? "" then "Ingest failed" else d
                             | None => "Ingest failed"
                             end))
        end
      else json r
  end.

End Api.

(** ** The inspector ([ThoughtStream.tsx]) *)

Module ThoughtStream.
Import Browser.

(** The component instance: its prop, its [useState] cell and the interval
    its polling effect holds ([None] when the effect returned early or has
    been cleaned up).  [pulled] counts the pulls this instance has issued:
    [setFrames] belongs to the instance, so only the answers to its own
    pulls can reach its buffer. *)
Record State : Type := mkState {
  isRunning : bool;
  frames : list InspectionFrame;
  interval : option Timer;
  pulled : nat
}.

(** The updater given to [setFrames]:
    [(prev) => [...prev, ...data.frames].slice(-50)]. *)
Definition keepLast (batch prev : list InspectionFrame) : list InspectionFrame :=
  slice_last 50 (prev ++ batch).

(** The interval callback after its [await]: the [try] body on a resolved
    promise, the empty [catch] on a rejected one. *)
Definition onSettled (data : Settled Api.InspectionBody)
    (prev : list InspectionFrame) : list InspectionFrame :=
  match data with
  | Resolved d =>
      match Api.frames d with
      | Some (f :: fs) => keepLast (f :: fs) prev
      | _ => prev
      end
  | Rejected _ => prev
  end.

(** The polling effect, run at time [now] when the next free interval
    handle is [next]:
[[
  if (!isRunning) return;
  const interval = setInterval(async () => { ... }, 800);
  return () => clearInterval(interval);
]] *)
Definition pollingEffect (now next : nat) (running : bool)
  : option Timer * nat * list Action :=
  if negb running then (None, next, [])
  else (Some (mkTimer next 800 (now + 800)), S next, [SetInterval next 800]).

(** The cleanup the effect returned, if it returned one. *)
Definition cleanup (t : option Timer) : list Action :=
  match t with
  | Some t => [ClearInterval (handle t)]
  | None => []
  end.

End ThoughtStream.

(** ** The staging view ([IngestView.tsx], lines 47-145) *)

Module IngestView.
Import Browser SelectionTree.

(** The component instance: the [activeDB] prop, the [useState] cells the
    handlers read or write, the interval of the status polling effect, and
    the [ThoughtStream] child, which is rendered only under
    [showInspector && ...].  ([sourceType] and [isConsoleExpanded] only
    drive the layout and are left out.) *)
Record State : Type := mkState {
  activeDB : option string;
  targetPath : string;
  tree : option FileNode;
  loadingScan : bool;
  llmModel : string;
  status : IngestStatus;
  showInspector : bool;
  poller : Timer;
  inspector : option ThoughtStream.State
}.

Definition setTree (t : option FileNode) (s : State) : State :=
  mkState (activeDB s) (targetPath s) t (loadingScan s) (llmModel s)
    (status s) (showInspector s) (poller s) (inspector s).

Definition setLoadingScan (b : bool) (s : State) : State :=
  mkState (activeDB s) (targetPath s) (tree s) b (llmModel s)
    (status s) (showInspector s) (poller s) (inspector s).

Definition setStatus (st : IngestStatus) (s : State) : State :=
  mkState (activeDB s) (targetPath s) (tree s) (loadingScan s) (llmModel s)
    st (showInspector s) (poller s) (inspector s).

Definition setShowInspector (b : bool) (s : State) : State :=
  mkState (activeDB s) (targetPath s) (tree s) (loadingScan s) (llmModel s)
    (status s) b (poller s) (inspector s).

Definition setTargetPath (p : string) (s : State) : State :=
  mkState (activeDB s) p (tree s) (loadingScan s) (llmModel s)
    (status s) (showInspector s) (poller s) (inspector s).

Definition setLlmModel (m : string) (s : State) : State :=
  mkState (activeDB s) (targetPath s) (tree s) (loadingScan s) m
    (status s) (showInspector s) (poller s) (inspector s).

Definition setActiveDB (db : option string) (s : State) : State :=
  mkState db (targetPath s) (tree s) (loadingScan s) (llmModel s)
    (status s) (showInspector s) (poller s) (inspector s).

Definition setPoller (t : Timer) (s : State) : State :=
  mkState (activeDB s) (targetPath s) (tree s) (loadingScan s) (llmModel s)
    (status s) (showInspector s) t (inspector s).

Definition setInspector (i : option ThoughtStream.State) (s : State) : State :=
  mkState (activeDB s) (targetPath s) (tree s) (loadingScan s) (llmModel s)
    (status s) (showInspector s) (poller s) i.

(** The initial value of the [status] cell. *)
Definition initialStatus : IngestStatus := mkIngestStatus false "" 0 0 0 [].

(** [targetPath.trim() || "."] *)
Definition rootPath (s : State) : string :=
  let p := trim (targetPath s) in if p =? "" then "." else p.

(** [poll] after its [await]: [setStatus(s)], or
    [console.error("Polling failed", e)]. *)
Definition poll_settled (r : Settled IngestStatus) (s : State)
  : State * list Action :=
  match r with
  | Resolved st => (setStatus st s, [])
  | Rejected e => (s, [ConsoleError "Polling failed" e])
  end.

(** [handleScan] up to its [await]. *)
Definition handleScan (s : State) : State * list Action :=
  (setLoadingScan true s, [Fetch (ScanPath (rootPath s))]).

(** [handleScan] after its [await], with the [finally] block. *)
Definition handleScan_settled (r : Settled Api.TreeResponse) (s : State)
  : State * list Action :=
  match r with
  | Resolved res =>
      (setLoadingScan false
         (match Api.tree res with
          | Some t => setTree (Some t) s
          | None => s
          end), [])
  | Rejected e =>
      (setLoadingScan false s, [Alert ("Scan failed: " ++ error_toString e)])
  end.

(** [handleToggleCheck(node, isChecked)] *)
Definition handleToggleCheck (node : FileNode) (isChecked : bool) (s : State)
  : State :=
  match tree s with
  | Some t => setTree (Some (updateNodeChecked t (path node) isChecked)) s
  | None => s
  end.

(** [!activeDB]: [null] and the empty string are falsy. *)
Definition noActiveDB (s : State) : bool :=
  match activeDB s with
  | Some db => db =? ""
  | None => true
  end.

(** The list [handleStartIngest] would submit. *)
Definition selection (s : State) : list string :=
  match tree s with
  | Some t => extractCheckedFiles t
  | None => []
  end.

(** [handleStartIngest] up to its [await]: the three guards, then the
    request.  It writes no state. *)
Definition handleStartIngest (s : State) : list Action :=
  match activeDB s with
  | None => [Alert "Please select a Knowledge Base first!"]
  | Some db =>
      if db =? "" then [Alert "Please select a Knowledge Base first!"]
      else
        match tree s with
        | None => []
        | Some t =>
            let files := extractCheckedFiles t in
            if Nat.eqb (List.length files) 0 then []
            else [Fetch (ExecuteIngest db (rootPath s) files (llmModel s))]
        end
  end.

(** [handleStartIngest] after its [await]: [setShowInspector(true)], or
    [alert("Ingest Error: " + e.message)]. *)
Definition handleStartIngest_settled (r : Settled Api.IngestBody) (s : State)
  : State * list Action :=
  match r with
  | Resolved _ => (setShowInspector true s, [])
  | Rejected e => (s, [Alert ("Ingest Error: " ++ message e)])
  end.

(** [isStartDisabled] *)
Definition isStartDisabled (s : State) : bool :=
  match tree s with None => true | Some _ => false end
  || Nat.eqb (List.length (selection s)) 0
  || is_running (status s)
  || noActiveDB s.

End IngestView.

(** ** The page as a transition system *)

Module Console.
Import Browser.

(** The clock (ms), the next interval handle the browser will hand out,
    what has been done so far (oldest first) and the mounted view. *)
Record World : Type := mkWorld {
  now : nat;
  next_handle : nat;
  actions : list Action;
  view : option IngestView.State
}.

(** What happens to the page.  A settled request is told apart by who
    issued it: [StatusSettled], [FramesSettled], [ScanSettled] and
    [IngestSettled] are answers to requests of the component instance that
    is mounted, the [Late] ones answers to requests of an instance that
    has been unmounted since.  The state setters of a gone instance do
    nothing, but the [catch] blocks of its handlers still run. *)
Inductive Event : Type :=
| Mount (db : option string)
| Unmount
| Tick
| SetActiveDB (db : option string)
| StatusSettled (res : Fetched IngestStatus)
| FramesSettled (res : Fetched Api.InspectionBody)
| EditTargetPath (p : string)
| SelectModel (m : string)
| ClickScan
| ScanSettled (res : Fetched Api.TreeResponse)
| ToggleCheck (node : FileNode) (isChecked : bool)
| ClickInspector
| ClickStart
| IngestSettled (res : Fetched Api.IngestBody)
| LateStatusSettled (res : Fetched IngestStatus)
| LateFramesSettled (res : Fetched Api.InspectionBody)
| LateScanSettled (res : Fetched Api.TreeResponse)
| LateIngestSettled (res : Fetched Api.IngestBody).

Definition initial : World := mkWorld 0 1 [] None.

(** Committing a render of the view: the [ThoughtStream] child is mounted,
    updated or unmounted as [showInspector && <ThoughtStream
    isRunning={status.is_running} />] says, and its effect runs again only
    when its dependency [isRunning] has changed, after the cleanup of the
    previous run. *)
Definition render (w : World) (iv : IngestView.State) : World :=
  let running := is_running (IngestView.status iv) in
  if IngestView.showInspector iv then
    match IngestView.inspector iv with
    | None =>
        let '(t, nh, acts) :=
          ThoughtStream.pollingEffect (now w) (next_handle w) running in
        mkWorld (now w) nh (actions w ++ acts)
          (Some (IngestView.setInspector
                   (Some (ThoughtStream.mkState running [] t 0)) iv))
    | Some ts =>
        if Bool.eqb (ThoughtStream.isRunning ts) running then
          mkWorld (now w) (next_handle w) (actions w) (Some iv)
        else
          let '(t, nh, acts) :=
            ThoughtStream.pollingEffect (now w) (next_handle w) running in
          mkWorld (now w) nh
            (actions w ++ ThoughtStream.cleanup (ThoughtStream.interval ts) ++ acts)
            (Some (IngestView.setInspector
                     (Some (ThoughtStream.mkState running
                              (ThoughtStream.frames ts) t
                              (ThoughtStream.pulled ts))) iv))
    end
  else
    match IngestView.inspector iv with
    | None => mkWorld (now w) (next_handle w) (actions w) (Some iv)
    | Some ts =>
        mkWorld (now w) (next_handle w)
          (actions w ++ ThoughtStream.cleanup (ThoughtStream.interval ts))
          (Some (IngestView.setInspector None iv))
    end.

(** A handler ran: record what it did, then render. *)
Definition commit (w : World) (r : IngestView.State * list Action) : World :=
  render (mkWorld (now w) (next_handle w) (actions w ++ snd r) (view w)) (fst r).

(** The view mounts: the status polling effect calls [poll()] at once and
    then [setInterval(poll, 1000)]. *)
Definition mount (db : option string) (w : World) : World :=
  let h := next_handle w in
  render
    (mkWorld (now w) (S h)
       (actions w ++ [Fetch GetIngestStatus; SetInterval h 1000]) None)
    (IngestView.mkState db "" None false "none" IngestView.initialStatus true
       (mkTimer h 1000 (now w + 1000)) None).

(** The view unmounts: both effects are cleaned up, the view's own before
    its child's. *)
Definition unmount (w : World) (iv : IngestView.State) : World :=
  mkWorld (now w) (next_handle w)
    (actions w
     ++ [ClearInterval (handle (IngestView.poller iv))]
     ++ match IngestView.inspector iv with
        | Some ts => ThoughtStream.cleanup (ThoughtStream.interval ts)
        | None => []
        end)
    None.

Definition rearm (t : Timer) : Timer :=
  mkTimer (handle t) (period t) (due t + period t).

(** One millisecond passes; an interval whose time has come runs its
    callback up to the [await] (the request is issued) and is re-armed. *)
Definition tick (w : World) : World :=
  let t := S (now w) in
  match view w with
  | None => mkWorld t (next_handle w) (actions w) None
  | Some iv =>
      let p := IngestView.poller iv in
      let '(p', a1) :=
        if Nat.leb (due p) t then (rearm p, [Fetch GetIngestStatus]) else (p, []) in
      let '(i', a2) :=
        match IngestView.inspector iv with
        | Some ts =>
            match ThoughtStream.interval ts with
            | Some ti =>
                if Nat.leb (due ti) t then
                  (Some (ThoughtStream.mkState (ThoughtStream.isRunning ts)
                           (ThoughtStream.frames ts) (Some (rearm ti))
                           (S (ThoughtStream.pulled ts))),
                   [Fetch GetInspectionFrames])
                else (Some ts, [])
            | None => (Some ts, [])
            end
        | None => (None, [])
        end in
      mkWorld t (next_handle w) (actions w ++ a1 ++ a2)
        (Some (IngestView.setInspector i' (IngestView.setPoller p' iv)))
  end.

(** A pull of the mounted inspector settles: the inspector updates its
    buffer.  An inspector that has issued no pull has no answer to get. *)
Definition framesSettled (res : Fetched Api.InspectionBody)
    (iv : IngestView.State) : IngestView.State :=
  match IngestView.inspector iv with
  | Some ts =>
      if Nat.eqb (ThoughtStream.pulled ts) 0 then iv
      else
        IngestView.setInspector
          (Some (ThoughtStream.mkState (ThoughtStream.isRunning ts)
                   (ThoughtStream.onSettled (Api.getInspectionFrames res)
                      (ThoughtStream.frames ts))
                   (ThoughtStream.interval ts)
                   (ThoughtStream.pulled ts))) iv
  | None => iv
  end.

(** What a handler of an unmounted instance still does when its request
    settles: the [catch] of [poll], of [handleScan] and of
    [handleStartIngest]; the [catch] of the telemetry callback is empty. *)
Definition late_actions (e : Event) : list Action :=
  match e with
  | StatusSettled res | LateStatusSettled res =>
      match Api.getIngestStatus res with
      | Rejected err => [ConsoleError "Polling failed" err]
      | Resolved _ => []
      end
  | ScanSettled res | LateScanSettled res =>
      match Api.scanPath res with
      | Rejected err => [Alert ("Scan failed: " ++ error_toString err)]
      | Resolved _ => []
      end
  | IngestSettled res | LateIngestSettled res =>
      match Api.executeIngest res with
      | Rejected err => [Alert ("Ingest Error: " ++ message err)]
      | Resolved _ => []
      end
  | _ => []
  end.

(** The record grows, nothing else changes. *)
Definition record (w : World) (acts : list Action) : World :=
  mkWorld (now w) (next_handle w) (actions w ++ acts) (view w).

(** The handler an event runs in the mounted view, with what it does. *)
Definition dispatch (e : Event) (iv : IngestView.State)
  : IngestView.State * list Action :=
  match e with
  | SetActiveDB db => (IngestView.setActiveDB db iv, [])
  | StatusSettled res => IngestView.poll_settled (Api.getIngestStatus res) iv
  | FramesSettled res => (framesSettled res iv, [])
  | EditTargetPath p => (IngestView.setTargetPath p iv, [])
  | SelectModel m => (IngestView.setLlmModel m iv, [])
  | ClickScan => IngestView.handleScan iv
  | ScanSettled res => IngestView.handleScan_settled (Api.scanPath res) iv
  | ToggleCheck node b => (IngestView.handleToggleCheck node b iv, [])
  | ClickInspector =>
      (IngestView.setShowInspector (negb (IngestView.showInspector iv)) iv, [])
  | ClickStart => (iv, IngestView.handleStartIngest iv)
  | IngestSettled res =>
      IngestView.handleStartIngest_settled (Api.executeIngest res) iv
  | LateStatusSettled _ | LateFramesSettled _ | LateScanSettled _
  | LateIngestSettled _ => (iv, late_actions e)
  | Mount _ | Unmount | Tick => (iv, [])
  end.

(** With no view on the page every answer is a late one. *)
Definition step (e : Event) (w : World) : World :=
  match view w with
  | None =>
      match e with
      | Mount db => mount db w
      | Tick => tick w
      | StatusSettled _ | ScanSettled _ | IngestSettled _
      | LateStatusSettled _ | LateScanSettled _ | LateIngestSettled _ =>
          record w (late_actions e)
      | _ => w
      end
  | Some iv =>
      match e with
      | Mount _ => w
      | Unmount => unmount w iv
      | Tick => tick w
      | _ => commit w (dispatch e iv)
      end
  end.

(** The events that run a handler of the mounted view. *)
Definition runs_handler (e : Event) : bool :=
  match e with
  | Mount _ | Unmount | Tick => false
  | _ => true
  end.

Definition run (es : list Event) (w : World) : World :=
  fold_left (fun w e => step e w) es w.

Inductive reachable : World -> Prop :=
| reach_initial : reachable initial
| reach_step : forall w e, reachable w -> reachable (step e w).

(** *** Observations *)

Definition is_telemetry_pull (a : Action) : bool :=
  match a with Fetch GetInspectionFrames => true | _ => false end.

Definition is_status_pull (a : Action) : bool :=
  match a with Fetch GetIngestStatus => true | _ => false end.

Definition is_submission (a : Action) : bool :=
  match a with Fetch (ExecuteIngest _ _ _ _) => true | _ => false end.

Definition is_alert (a : Action) : bool :=
  match a with Alert _ => true | _ => false end.

(** How many telemetry pulls have been issued so far. *)
Definition telemetry_pulls (w : World) : nat :=
  List.length (filter is_telemetry_pull (actions w)).

(** What a step added to the record of actions. *)
Definition added (w w' : World) (acts : list Action) : Prop :=
  actions w' = actions w ++ acts.

Definition status_pulls (w : World) : nat :=
  List.length (filter is_status_pull (actions w)).

(** The mounted inspector. *)
Definition stream (w : World) : option ThoughtStream.State :=
  match view w with
  | Some iv => IngestView.inspector iv
  | None => None
  end.

(** The live interval of the telemetry puller. *)
Definition telemetry_timer (w : World) : option Timer :=
  match stream w with
  | Some ts => ThoughtStream.interval ts
  | None => None
  end.

(** The client frame buffer. *)
Definition buffer (w : World) : list InspectionFrame :=
  match stream w with
  | Some ts => ThoughtStream.frames ts
  | None => []
  end.

(** The [is_running] flag of the status snapshot the view holds. *)
Definition observed_running (w : World) : bool :=
  match view w with
  | Some iv => is_running (IngestView.status iv)
  | None => false
  end.

(** The interval handles [setInterval] has returned so far. *)
Definition handles_of (l : list Action) : list nat :=
  flat_map (fun a => match a with SetInterval h _ => [h] | _ => [] end) l.

Definition issued_handles (w : World) : list nat := handles_of (actions w).

Definition count_telemetry (l : list Action) : nat :=
  List.length (filter is_telemetry_pull l).

(** [is_running] stays false along a run, its end points included. *)
Fixpoint idle_throughout (es : list Event) (w : World) : bool :=
  negb (observed_running w) &&
  match es with
  | [] => true
  | e :: es' => idle_throughout es' (step e w)
  end.

Definition ticks (es : list Event) : nat :=
  List.length (filter (fun e => match e with Tick => true | _ => false end) es).

(** The frames a run delivers to the inspector, in arrival order. *)
Definition delivered (res : Fetched Api.InspectionBody) : list InspectionFrame :=
  match Api.getInspectionFrames res with
  | Resolved d =>
      match Api.frames d with
      | Some fs => fs
      | None => []
      end
  | Rejected _ => []
  end.

(** The inspector on the page has a pull of its own behind it: only then
    can an answer reach it. *)
Definition listening (w : World) : bool :=
  match stream w with
  | Some ts => negb (Nat.eqb (ThoughtStream.pulled ts) 0)
  | None => false
  end.

(** The frames an event brings to the inspector on the page. *)
Definition heard (w : World) (e : Event) : list InspectionFrame :=
  match e with
  | FramesSettled res => if listening w then delivered res else []
  | _ => []
  end.

(** The frames the inspector on the page at the end of a run has been
    brought since it was mounted, batch after batch in the order the
    answers arrived, none dropped: [h] is what it had been brought before
    the run, and an inspector that leaves the page takes its frames with
    it. *)
Fixpoint received_from (h : list InspectionFrame) (es : list Event) (w : World)
  : list InspectionFrame :=
  match es with
  | [] => h
  | e :: es' =>
      received_from
        match stream (step e w) with
        | Some _ => h ++ heard w e
        | None => []
        end es' (step e w)
  end.

Definition received (es : list Event) : list InspectionFrame :=
  received_from [] es initial.

(** Events that take the inspector off the page. *)
Definition closes_inspector (e : Event) : bool :=
  match e with
  | Unmount | ClickInspector => true
  | _ => false
  end.

(** The interval [t] fires in the millisecond that follows [w]. *)
Definition fires (w : World) (t : Timer) : bool := Nat.leb (due t) (S (now w)).

(** The time left, at the least, before the next telemetry pull: what the
    live interval still has to wait, a full period when there is none. *)
Definition slack (w : World) : nat :=
  match telemetry_timer w with
  | Some t => due t - now w
  | None => 800
  end.

(** *** The invariant of the reachable worlds *)

(** A live interval of period [per]: its handle has been handed out, and
    it fires within the coming [per] milliseconds. *)
Definition timer_ok (w : World) (per : nat) (t : Timer) : Prop :=
  handle t < next_handle w /\ period t = per /\
  now w < due t /\ due t <= now w + per.

(** The inspector holds an interval exactly when its prop says running,
    and never more than 50 frames. *)
Definition stream_held (w : World) (i : option ThoughtStream.State) : Prop :=
  match i with
  | Some ts =>
      List.length (ThoughtStream.frames ts) <= 50 /\
      match ThoughtStream.interval ts with
      | Some t => ThoughtStream.isRunning ts = true /\ timer_ok w 800 t
      | None => ThoughtStream.isRunning ts = false
      end
  | None => True
  end.

(** The inspector is what the last render of the view asked for. *)
Definition stream_synced (iv : IngestView.State) : Prop :=
  match IngestView.inspector iv with
  | Some ts =>
      IngestView.showInspector iv = true /\
      ThoughtStream.isRunning ts = is_running (IngestView.status iv)
  | None => IngestView.showInspector iv = false
  end.

Definition wf (w : World) : Prop :=
  Forall (fun h => h < next_handle w) (issued_handles w) /\
  match view w with
  | Some iv =>
      timer_ok w 1000 (IngestView.poller iv) /\
      stream_held w (IngestView.inspector iv) /\
      stream_synced iv
  | None => True
  end.

End Console.

(** ** Scenarios *)

Module Scenario.
Import Browser Console.

(** The tree of the specification's scenario:
    [root(folder, [a.py(file), subdir(folder, [b.py(file)])])], all checked. *)
Definition a_py : FileNode :=
  mkFileNode "a.py" "/root/a.py" "a.py" file true None None.
Definition b_py : FileNode :=
  mkFileNode "b.py" "/root/subdir/b.py" "subdir/b.py" file true None None.
Definition subdir : FileNode :=
  mkFileNode "subdir" "/root/subdir" "subdir" folder true (Some [b_py]) None.
Definition root : FileNode :=
  mkFileNode "root" "/root" "." folder true (Some [a_py; subdir]) None.

(** Answers of the server. *)
Definition scanned (t : FileNode) : Fetched Api.TreeResponse :=
  Resolved (mkResponse true (Resolved (Api.mkTreeResponse (Some t) None))).

Definition accepted : Fetched Api.IngestBody :=
  Resolved (mkResponse true (Resolved (Api.mkIngestBody None))).

Definition refused (why : string) : Fetched Api.IngestBody :=
  Resolved (mkResponse false (Resolved (Api.mkIngestBody (Some why)))).

Definition offline (A : Type) : Fetched A :=
  Rejected (mkJsError "TypeError" "Failed to fetch").

Definition status_of (running : bool) : Fetched IngestStatus :=
  Resolved (mkResponse true
              (Resolved (mkIngestStatus running "a.py" 0 0 2 []))).

Definition frame (n : nat) : InspectionFrame :=
  mkInspectionFrame "a.py" n "def f(): pass" [] [] None.

Definition batch (fs : list InspectionFrame) : Fetched Api.InspectionBody :=
  Resolved (mkResponse true (Resolved (Api.mkInspectionBody (Some fs)))).

(** The view is mounted on the knowledge base "kb" and the scan has
    answered with [root]. *)
Definition staged : World :=
  run [Mount (Some "kb"); ClickScan; ScanSettled (scanned root)] initial.

(** ... and then the whole tree has been un-checked. *)
Definition nothing_selected : World :=
  step (ToggleCheck root false) staged.

(** The start button has been pressed on [staged]. *)
Definition submitted : World := step ClickStart staged.

(** The status poll has reported a running job. *)
Definition running : World := step (StatusSettled (status_of true)) submitted.

(** The same, as a run from the empty page. *)
Definition history : list Event :=
  [Mount (Some "kb"); ClickScan; ScanSettled (scanned root); ClickStart;
   StatusSettled (status_of true)].

(** 800 ms later: the inspector has issued its first pull. *)
Definition pulling : World := run (repeat Tick 800) running.

(** The no-break space U+00A0, in UTF-8. *)
Definition nbsp : string :=
  String (ascii_of_nat 194) (String (ascii_of_nat 160) "").

(** The server answers the status request with an error status and a
    body that reads as JSON. *)
Definition failed_status (body : IngestStatus) : Fetched IngestStatus :=
  Resolved (mkResponse false (Resolved body)).

End Scenario.

(** ** Further vocabulary for the selection tree *)

Module TreeVocabulary.
Import SelectionTree.

(** A node of type file, whatever its flag. *)
Definition is_file (n : FileNode) : bool := NodeType_eqb (type n) file.

(** [sublist l l']: [l] is [l'] with some entries left out, the order
    kept. *)
Inductive sublist (A : Type) : list A -> list A -> Prop :=
| sublist_nil : sublist [] []
| sublist_skip : forall x l l', sublist l l' -> sublist l (x :: l')
| sublist_keep : forall x l l', sublist l l' -> sublist (x :: l) (x :: l').

End TreeVocabulary.

(** ** Further vocabulary for the page *)

Module ConsoleVocabulary.
Import Browser Console.

(** A job-start request that names a knowledge base, a root path and at
    least one file. *)
Definition well_formed (a : Action) : Prop :=
  match a with
  | Fetch (ExecuteIngest db p files _) => db <> "" /\ p <> "" /\ files <> []
  | _ => True
  end.

(** The alert of the first guard of [handleStartIngest]. *)
Definition kb_alert : Action := Alert "Please select a Knowledge Base first!".

(** [App.tsx] renders [<IngestView activeDB={activeDB} />] only in the
    branch where [!activeDB] is false: the events by which [App] mounts the
    view or changes its prop carry a non-empty knowledge-base name. *)
Definition from_app (e : Event) : bool :=
  match e with
  | Mount db | SetActiveDB db =>
      match db with
      | Some name => negb (name =? "")
      | None => false
      end
  | _ => true
  end.

Definition is_mount (e : Event) : bool :=
  match e with Mount _ => true | _ => false end.

Definition is_unmount (e : Event) : bool :=
  match e with Unmount => true | _ => false end.

End ConsoleVocabulary.

(** ** String methods the components use *)

Module Text.

(** [s.startsWith(pat)] *)
Fixpoint startsWith (pat s : string) : bool :=
  match pat, s with
  | EmptyString, _ => true
  | String a pat', String b s' => Ascii.eqb a b && startsWith pat' s'
  | String _ _, EmptyString => false
  end.

(** [s.includes(pat)] *)
Fixpoint includes (pat s : string) : bool :=
  startsWith pat s ||
  match s with
  | EmptyString => false
  | String _ s' => includes pat s'
  end.

(** [s.slice(n)] for [n] within the string. *)
Fixpoint drop (n : nat) (s : string) : string :=
  match n, s with
  | 0, _ => s
  | S n', String _ s' => drop n' s'
  | S _, EmptyString => EmptyString
  end.

(** [s.replace(pat, rep)] for a string pattern and a replacement without
    [$]: the first occurrence of [pat] is replaced, the rest is kept. *)
Fixpoint replace (pat rep s : string) : string :=
  if startsWith pat s then rep ++ drop (String.length pat) s
  else
    match s with
    | EmptyString => EmptyString
    | String a s' => String a (replace pat rep s')
    end.

(** [s.split(c)] for a separator of one character: never an empty array. *)
Fixpoint split (c : ascii) (s : string) : list string :=
  match s with
  | EmptyString => [EmptyString]
  | String a s' =>
      if Ascii.eqb a c then EmptyString :: split c s'
      else
        match split c s' with
        | h :: t => String a h :: t
        | [] => [String a EmptyString]
        end
  end.

(** The value of [array.pop()]: the last element, [undefined] on an empty
    array. *)
Fixpoint pop (l : list string) : option string :=
  match l with
  | [] => None
  | [x] => Some x
  | _ :: l' => pop l'
  end.

(** The character occurs in the string. *)
Fixpoint occurs (c : ascii) (s : string) : bool :=
  match s with
  | EmptyString => false
  | String a s' => Ascii.eqb a c || occurs c s'
  end.

End Text.

(** ** The inspector's frame header ([ThoughtStream.tsx], line 64) *)

Module FrameHeader.

(** [frame.file_path.split('/').pop()] *)
Definition fileName (f : InspectionFrame) : option string :=
  Text.pop (Text.split "/" (file_path f)).

End FrameHeader.

(** ** The sidebar ([Sidebar.tsx]) *)

Module Sidebar.
Import Browser.

(** The body of [/kb/list]. *)
Record ListBody : Type := mkListBody { databases : list string }.

(** [api.listKBs]: [res.json()] whatever [res.ok] is. *)
Definition listKBs (res : Fetched ListBody) : Settled ListBody :=
  match res with
  | Rejected e => Rejected e
  | Resolved r => json r
  end.

(** [api.createKB]: [if (!res.ok) throw new Error('Failed to create DB')].
    The body of the answer is not looked at by the caller. *)
Definition createKB (A : Type) (res : Fetched A) : Settled A :=
  match res with
  | Rejected e => Rejected e
  | Resolved r =>
      if negb (ok r) then Rejected (Error "Failed to create DB") else json r
  end.

(** What the sidebar does to the outside. *)
Inductive Effect : Type :=
| FetchList
| FetchCreate (name : string)
| Alert (msg : string)
| ConsoleError (msg : string)
| SetActiveDB (db : string).

Record State : Type := mkState {
  dbs : list string;
  newDbName : string;
  loading : bool
}.

(** [db.replace('.db', '')]: the name shown for an entry, and the name
    given to [setActiveDB] when the entry is clicked. *)
Definition displayName (db : string) : string := Text.replace ".db" "" db.

(** The [onClick] of an entry. *)
Definition select (db : string) : list Effect := [SetActiveDB (displayName db)].

(** [fetchDbs] after its [await]: [setDbs(data.databases)], or
    [console.error("Failed to load DBs")].  It never throws. *)
Definition fetchDbs_settled (r : Settled ListBody) (s : State)
  : State * list Effect :=
  match r with
  | Resolved data => (mkState (databases data) (newDbName s) (loading s), [])
  | Rejected _ => (s, [ConsoleError "Failed to load DBs"])
  end.

(** [handleCreate] up to its first [await]. *)
Definition handleCreate (s : State) : State * list Effect :=
  if trim (newDbName s) =? "" then (s, [])
  else (mkState (dbs s) (newDbName s) true, [FetchCreate (trim (newDbName s))]).

(** [handleCreate] once [api.createKB] has settled: on success
    [setNewDbName('')] and the call of [fetchDbs]; on failure the [catch]
    and the [finally]. *)
Definition handleCreate_created (A : Type) (r : Settled A) (s : State)
  : State * list Effect :=
  match r with
  | Resolved _ => (mkState (dbs s) "" (loading s), [FetchList])
  | Rejected _ => (mkState (dbs s) (newDbName s) false, [Alert "Failed to create DB"])
  end.

(** [handleCreate] once the awaited [fetchDbs] has returned: the
    [finally]. *)
Definition handleCreate_refreshed (r : Settled ListBody) (s : State)
  : State * list Effect :=
  let '(s', acts) := fetchDbs_settled r s in
  (mkState (dbs s') (newDbName s') false, acts).

(** The whole of [handleCreate], given how the two requests settle. *)
Definition createFlow (A : Type) (created : Fetched A) (listed : Fetched ListBody)
    (s : State) : State * list Effect :=
  let '(s1, a1) := handleCreate s in
  match a1 with
  | [] => (s1, a1)
  | _ =>
      let '(s2, a2) := handleCreate_created (createKB created) s1 in
      match createKB created with
      | Rejected _ => (s2, a1 ++ a2)
      | Resolved _ =>
          let '(s3, a3) := handleCreate_refreshed (listKBs listed) s2 in
          (s3, a1 ++ a2 ++ a3)
      end
  end.

End Sidebar.

(** ** The explorer ([ExplorerView.tsx]) *)

Module ExplorerView.
Import Browser.

(** [interface SearchResult]; the score is a float in the source and is
    kept as an opaque numeral string. *)
Record SearchResult : Type := mkSearchResult {
  id : nat;
  result_path : string;
  result_snippet : string;
  score : string
}.



Inductive Effect : Type :=
| FetchSearch (q dbName : string)
| Alert (msg : string)
| ConsoleError (e : JsError).

(** The component instance; [found] is the [results] cell, named apart
    from the field of the response body. *)
Record State : Type := mkState {
  activeDB : option string;
  query : string;
  found : list SearchResult;
  loading : bool;
  selectedFile : option SearchResult
}.



End ExplorerView.

(** * Properties *)

(** ** The selection tree *)

Module SelectionTreeProps.
Import SelectionTree Scenario.

(** [updateRecursive] keeps the shape and the data and sets every flag. *)
Lemma updateRecursive_node_at (v : bool) (t : FileNode) :
  forall pos,
    match node_at pos t with
    | None => node_at pos (updateRecursive t v) = None
    | Some n =>
        exists n', node_at pos (updateRecursive t v) = Some n' /\
                   same_node_data n n' /\ checked n' = v
    end.
Proof.
  induction t as [n Hn | n cs Hn IH] using FileNode_tree_ind; intros pos.
  - destruct n as [nm p rp ty ck ch er]; simpl in Hn; subst ch.
    destruct pos as [|i pos]; simpl.
    + eexists; split; [reflexivity|]. now repeat split.
    + reflexivity.
  - destruct n as [nm p rp ty ck ch er]; simpl in Hn; subst ch.
    destruct pos as [|i pos].
    + simpl. eexists; split; [reflexivity|].
      split; [|reflexivity]. unfold same_node_data, arity; simpl.
      rewrite length_map. now repeat split.
    + cbn [node_at updateRecursive children]. rewrite nth_error_map.
      destruct (nth_error cs i) as [c|] eqn:Hc; simpl; [|reflexivity].
      rewrite Forall_forall in IH.
      exact (IH c (nth_error_In _ _ Hc) pos).
Qed.

(** A tree in which no node has the target path is returned as it is. *)
Lemma updateNodeChecked_absent (p : string) (v : bool) (t : FileNode) :
  has_path p t = false -> updateNodeChecked t p v = t.
Proof.
  unfold has_path.
  induction t as [n Hn | n cs Hn IH] using FileNode_tree_ind; intros H.
  - destruct n as [nm q rp ty ck ch er]; simpl in Hn; subst ch.
    simpl in H. apply orb_false_elim in H as [Hq _].
    simpl. now rewrite Hq.
  - destruct n as [nm q rp ty ck ch er]; simpl in Hn; subst ch.
    simpl in H. apply orb_false_elim in H as [Hq Hcs].
    simpl. rewrite Hq. f_equal. f_equal.
    induction cs as [|c cs IHcs]; [reflexivity|].
    simpl in Hcs. rewrite existsb_app in Hcs.
    apply orb_false_elim in Hcs as [Hc Hcs].
    inversion IH as [|? ? IHc IHrest]; subst.
    simpl. rewrite (IHc Hc). f_equal. now apply IHcs.
Qed.

(** Position by position: what [updateNodeChecked] does to each node. *)
Lemma updateNodeChecked_node_at (p : string) (v : bool) (t : FileNode) :
  forall pos,
    match node_at pos t with
    | None => node_at pos (updateNodeChecked t p v) = None
    | Some n =>
        exists n', node_at pos (updateNodeChecked t p v) = Some n' /\
                   same_node_data n n' /\
                   checked n' = (if within p pos t then v else checked n) /\
                   (within p pos t = false -> has_path p n = false -> n' = n)
    end.
Proof.
  induction t as [n Hn | n cs Hn IH] using FileNode_tree_ind; intros pos.
  - destruct n as [nm q rp ty ck ch er]; simpl in Hn; subst ch.
    destruct pos as [|i pos]; simpl; destruct (q =? p) eqn:Hq; simpl;
      try reflexivity.
    + eexists; split; [reflexivity|]. repeat split. discriminate.
    + eexists; split; [reflexivity|]. repeat split.
  - destruct n as [nm q rp ty ck ch er]; simpl in Hn; subst ch.
    set (t := mkFileNode nm q rp ty ck (Some cs) er).
    destruct (q =? p) eqn:Hq.
    + assert (Hu : updateNodeChecked t p v = updateRecursive t v)
        by (unfold t; simpl; now rewrite Hq).
      assert (Hw : within p pos t = true)
        by (unfold t; destruct pos; simpl; now rewrite Hq).
      rewrite Hu, Hw. pose proof (updateRecursive_node_at v t pos) as H.
      destruct (node_at pos t) as [n|]; [|exact H].
      destruct H as (n' & H1 & H2 & H3). exists n'.
      split; [exact H1|]. split; [exact H2|]. split; [exact H3|].
      discriminate.
    + destruct pos as [|i pos].
      * cbn [node_at]. eexists; split; [reflexivity|].
        unfold t; simpl; rewrite Hq; simpl.
        split; [|split; [reflexivity|]].
        -- unfold same_node_data, arity; simpl. rewrite length_map.
           now repeat split.
        -- intros _ Habs.
           pose proof (updateNodeChecked_absent p v _ Habs) as E.
           simpl in E. rewrite Hq in E. exact E.
      * unfold t. cbn [node_at updateNodeChecked within children path].
        rewrite Hq. cbn [children]. rewrite nth_error_map.
        destruct (nth_error cs i) as [c|] eqn:Hc; simpl; [|reflexivity].
        rewrite Forall_forall in IH.
        exact (IH c (nth_error_In _ _ Hc) pos).
Qed.

(** [forEach] with [concat] accumulates the children's results in order. *)
Lemma fold_left_concat (A B : Type) (f : A -> list B) (cs : list A) :
  forall acc,
    fold_left (fun files child => files ++ f child) cs acc =
    acc ++ flat_map f cs.
Proof.
  induction cs as [|c cs IH]; intros acc; simpl.
  - now rewrite app_nil_r.
  - now rewrite IH, app_assoc.
Qed.

Lemma extractCheckedFiles_unfold (t : FileNode) :
  extractCheckedFiles t =
  (if selected t then [rel_path t] else []) ++
  match children t with
  | Some cs => flat_map extractCheckedFiles cs
  | None => []
  end.
Proof.
  destruct t as [nm q rp ty ck [cs|] er]; unfold selected; simpl.
  - now rewrite fold_left_concat.
  - now rewrite app_nil_r.
Qed.

Lemma extractCheckedFiles_refines (t : FileNode) :
  extractCheckedFiles t = extractSelected_spec t.
Proof.
  unfold extractSelected_spec.
  induction t as [n Hn | n cs Hn IH] using FileNode_tree_ind;
    rewrite extractCheckedFiles_unfold; destruct n as [nm q rp ty ck ch er];
    simpl in Hn; subst ch; cbn [nodes children filter].
  - rewrite app_nil_r. now destruct (selected _).
  - assert (E : flat_map extractCheckedFiles cs =
                map rel_path (filter selected (flat_map nodes cs))).
    { induction IH as [|c cs Hc _ IHcs]; [reflexivity|].
      cbn [flat_map]. rewrite filter_app, map_app, Hc, IHcs. reflexivity. }
    rewrite E. now destruct (selected _).
Qed.

Lemma has_path_false_iff (p : string) (t : FileNode) :
  has_path p t = false <-> forall n, In n (nodes t) -> path n <> p.
Proof.
  unfold has_path. split.
  - intros H n Hn E.
    assert (existsb (fun n => path n =? p) (nodes t) = true); [|congruence].
    apply existsb_exists. exists n. split; [exact Hn|]. now apply String.eqb_eq.
  - intros H. destruct (existsb _ _) eqn:E; [|reflexivity].
    apply existsb_exists in E as (n & Hn & Hp).
    apply String.eqb_eq in Hp. now elim (H n Hn).
Qed.

(** *** The scenario of the specification *)

Example root_selected :
  extractCheckedFiles root = ["a.py"; "subdir/b.py"].
Proof. reflexivity. Qed.

Example root_deselected :
  extractCheckedFiles (updateNodeChecked root "/root" false) = [].
Proof. reflexivity. Qed.

Example subdir_deselected :
  extractCheckedFiles (updateNodeChecked root "/root/subdir" false) = ["a.py"].
Proof. reflexivity. Qed.

(** Overwrite-down, not aggregate-up: un-checking a leaf leaves the
    folders above it checked. *)
Example leaf_toggle_keeps_ancestors :
  option_map checked
    (node_at [1] (updateNodeChecked root "/root/subdir/b.py" false)) = Some true
  /\ option_map checked
       (node_at [1; 0] (updateNodeChecked root "/root/subdir/b.py" false))
     = Some false.
Proof. split; reflexivity. Qed.

(** C1. [toggle(t, p, v)] is [updateNodeChecked t p v].  The result has
    the positions of [t] and no others.  At every position the node keeps
    its name, path, rel_path, type, error and number of children; its
    [checked] flag is [v] when the position lies in the subtree of a node
    whose path is [p] (that node included), whatever the flag was before;
    otherwise the flag is the old one, and when moreover no node below it
    has path [p] the whole node, children included, is the old one. *)
Theorem toggle_overwrites_subtree_only (t : FileNode) (p : string) (v : bool)
    (pos : list nat) :
  match node_at pos t with
  | None => node_at pos (updateNodeChecked t p v) = None
  | Some n =>
      exists n',
        node_at pos (updateNodeChecked t p v) = Some n' /\
        same_node_data n n' /\
        (within p pos t = true -> checked n' = v) /\
        (within p pos t = false ->
           checked n' = checked n /\ (has_path p n = false -> n' = n))
  end.
Proof.
  pose proof (updateNodeChecked_node_at p v t pos) as H.
  destruct (node_at pos t) as [n|]; [|exact H].
  destruct H as (n' & H1 & H2 & H3 & H4). exists n'.
  split; [exact H1|]. split; [exact H2|]. split.
  - intros Hw. now rewrite Hw in H3.
  - intros Hw. rewrite Hw in H3. split; [exact H3|]. now apply H4.
Qed.

(** C2. [extractSelected(t)] is [extractCheckedFiles t].  It is the list of
    the [rel_path]s of the nodes that are files and checked, in depth-first
    order with the children in their order; every entry comes from a node
    of type file that is checked, so a folder or a binary contributes
    nothing even when checked; and a tree without a checked file gives the
    empty list. *)
Theorem extractCheckedFiles_selects_checked_files (t : FileNode) :
  extractCheckedFiles t = extractSelected_spec t /\
  (forall r, In r (extractCheckedFiles t) ->
     exists n, In n (nodes t) /\ type n = file /\ checked n = true /\
               rel_path n = r) /\
  ((forall n, In n (nodes t) -> type n = file -> checked n = false) ->
   extractCheckedFiles t = []).
Proof.
  rewrite extractCheckedFiles_refines. unfold extractSelected_spec.
  split; [reflexivity|]. split.
  - intros r Hr. apply in_map_iff in Hr as (n & Hn & Hin).
    apply filter_In in Hin as [Hin Hsel]. unfold selected in Hsel.
    apply andb_true_iff in Hsel as [Hty Hck].
    exists n. repeat split; auto. now destruct (type n).
  - intros H.
    assert (E : filter selected (nodes t) = []); [|now rewrite E].
    induction (nodes t) as [|n l IH]; [reflexivity|]. simpl.
    assert (Hn : selected n = false).
    { unfold selected. destruct (type n) eqn:Hty; try reflexivity.
      simpl. apply H; [now left | exact Hty]. }
    rewrite Hn. apply IH. intros m Hm. apply H. now right.
Qed.

Lemma updateRecursive_idempotent (v : bool) (t : FileNode) :
  updateRecursive (updateRecursive t v) v = updateRecursive t v.
Proof.
  induction t as [n Hn | n cs Hn IH] using FileNode_tree_ind;
    destruct n as [nm q rp ty ck ch er]; simpl in Hn; subst ch; simpl;
    [reflexivity|].
  f_equal. f_equal. rewrite map_map. apply map_ext_in.
  rewrite Forall_forall in IH. exact IH.
Qed.

(** X1. Toggle idempotence: toggling twice with the same path and value
    is toggling once. *)
Theorem toggle_idempotent (t : FileNode) (p : string) (v : bool) :
  updateNodeChecked (updateNodeChecked t p v) p v = updateNodeChecked t p v.
Proof.
  induction t as [n Hn | n cs Hn IH] using FileNode_tree_ind;
    destruct n as [nm q rp ty ck ch er]; simpl in Hn; subst ch.
  - simpl. destruct (q =? p) eqn:Hq; simpl; now rewrite Hq.
  - cbn [updateNodeChecked path children]. destruct (q =? p) eqn:Hq.
    + cbn [updateRecursive updateNodeChecked path children name rel_path
           type error]. rewrite Hq.
      change (updateRecursive
                (updateRecursive (mkFileNode nm q rp ty ck (Some cs) er) v) v =
              updateRecursive (mkFileNode nm q rp ty ck (Some cs) er) v).
      apply updateRecursive_idempotent.
    + cbn [updateNodeChecked path children name rel_path type error checked].
      rewrite Hq. f_equal. f_equal. rewrite map_map. apply map_ext_in.
      rewrite Forall_forall in IH. exact IH.
Qed.

(** C9. When no node of [t] has the target path, [updateNodeChecked]
    returns a tree equal to [t]: a toggle of a missing path does nothing
    and raises nothing. *)
Theorem toggle_missing_path_is_identity (t : FileNode) (p : string) (v : bool) :
  (forall n, In n (nodes t) -> path n <> p) ->
  updateNodeChecked t p v = t.
Proof.
  intros H. apply updateNodeChecked_absent. now apply has_path_false_iff.
Qed.

Lemma toggle_missing_path_is_identity_witness :
  updateNodeChecked root "nonexistent" false = root.
Proof.
  apply (@toggle_missing_path_is_identity root "nonexistent" false).
  apply has_path_false_iff. reflexivity.
Defined.

(** *** Further properties of the two helpers *)

Section More.
Import TreeVocabulary.

Lemma updateRecursive_overwrites (v v' : bool) (t : FileNode) :
  updateRecursive (updateRecursive t v) v' = updateRecursive t v'.
Proof.
  induction t as [n Hn | n cs Hn IH] using FileNode_tree_ind;
    destruct n as [nm q rp ty ck ch er]; simpl in Hn; subst ch; simpl;
    [reflexivity|].
  f_equal. f_equal. rewrite map_map. apply map_ext_in.
  rewrite Forall_forall in IH. exact IH.
Qed.

(** X2. Of two toggles of the same path the later one decides: the first
    leaves no trace. *)
Theorem toggle_last_wins (t : FileNode) (p : string) (v v' : bool) :
  updateNodeChecked (updateNodeChecked t p v) p v' = updateNodeChecked t p v'.
Proof.
  induction t as [n Hn | n cs Hn IH] using FileNode_tree_ind;
    destruct n as [nm q rp ty ck ch er]; simpl in Hn; subst ch.
  - simpl. destruct (q =? p) eqn:Hq; simpl; now rewrite Hq.
  - cbn [updateNodeChecked path children]. destruct (q =? p) eqn:Hq.
    + cbn [updateRecursive updateNodeChecked path children name rel_path
           type error]. rewrite Hq.
      change (updateRecursive
                (updateRecursive (mkFileNode nm q rp ty ck (Some cs) er) v) v' =
              updateRecursive (mkFileNode nm q rp ty ck (Some cs) er) v').
      apply updateRecursive_overwrites.
    + cbn [updateNodeChecked path children name rel_path type error checked].
      rewrite Hq. f_equal. f_equal. rewrite map_map. apply map_ext_in.
      rewrite Forall_forall in IH. exact IH.
Qed.

Lemma nodes_updateRecursive (v : bool) (t : FileNode) :
  nodes (updateRecursive t v) = map (fun n => updateRecursive n v) (nodes t).
Proof.
  induction t as [n Hn | n cs Hn IH] using FileNode_tree_ind;
    destruct n as [nm q rp ty ck ch er]; simpl in Hn; subst ch;
    cbn [nodes updateRecursive children map name path rel_path type error];
    [reflexivity|].
  f_equal.
  induction IH as [|c cs Hc _ IHcs]; [reflexivity|].
  cbn [map flat_map]. now rewrite map_app, Hc, IHcs.
Qed.

Lemma extractCheckedFiles_updateRecursive (v : bool) (t : FileNode) :
  extractCheckedFiles (updateRecursive t v) =
  if v then map rel_path (filter is_file (nodes t)) else [].
Proof.
  rewrite extractCheckedFiles_refines. unfold extractSelected_spec.
  rewrite nodes_updateRecursive.
  induction (nodes t) as [|n l IH]; [now destruct v|].
  cbn [map filter]. unfold selected at 1, is_file at 1.
  destruct n as [nm q rp ty ck ch er]; cbn [updateRecursive type checked rel_path].
  destruct (NodeType_eqb ty file), v; cbn [andb map rel_path];
    rewrite IH; reflexivity.
Qed.

(** X3. Toggling the root decides the whole selection: set to checked it
    selects every file of the tree, in depth-first order, and set to
    unchecked it selects nothing, whatever the flags were. *)
Theorem toggle_root_selects_all_or_nothing (t : FileNode) (v : bool) :
  extractCheckedFiles (updateNodeChecked t (path t) v) =
  if v then map rel_path (filter is_file (nodes t)) else [].
Proof.
  assert (E : updateNodeChecked t (path t) v = updateRecursive t v)
    by (destruct t; simpl; now rewrite String.eqb_refl).
  rewrite E. apply extractCheckedFiles_updateRecursive.
Qed.

Lemma sublist_refl (A : Type) (l : list A) : sublist l l.
Proof. induction l; [constructor | now apply sublist_keep]. Qed.

Lemma sublist_nil_l (A : Type) (l : list A) : sublist [] l.
Proof. induction l; [constructor | now apply sublist_skip]. Qed.

Lemma sublist_app (A : Type) (l1 l1' l2 l2' : list A) :
  sublist l1 l1' -> sublist l2 l2' -> sublist (l1 ++ l2) (l1' ++ l2').
Proof.
  induction 1; intros H2; simpl.
  - exact H2.
  - apply sublist_skip. auto.
  - apply sublist_keep. auto.
Qed.

Lemma sublist_selected_files (l : list FileNode) :
  sublist (map rel_path (filter selected l)) (map rel_path (filter is_file l)).
Proof.
  induction l as [|n l IH]; [apply sublist_nil|].
  cbn [filter]. unfold selected at 1, is_file at 1.
  destruct (NodeType_eqb (type n) file); [|exact IH].
  destruct (checked n); simpl;
    [now apply sublist_keep | now apply sublist_skip].
Qed.

Lemma sublist_flat_map (A B : Type) (f g : A -> list B) (l : list A) :
  Forall (fun a => sublist (f a) (g a)) l ->
  sublist (flat_map f l) (flat_map g l).
Proof.
  induction 1; simpl; [apply sublist_nil|]. now apply sublist_app.
Qed.

(** X4. Un-checking never adds to the selection and checking never takes
    away from it: the selection after [toggle(t, p, false)] is the old one
    with some entries left out, and the old selection is the one after
    [toggle(t, p, true)] with some entries left out, the order kept in
    both. *)
Theorem toggle_is_monotone (t : FileNode) (p : string) :
  sublist (extractCheckedFiles (updateNodeChecked t p false))
          (extractCheckedFiles t) /\
  sublist (extractCheckedFiles t)
          (extractCheckedFiles (updateNodeChecked t p true)).
Proof.
  induction t as [n Hn | n cs Hn IH] using FileNode_tree_ind.
  - destruct n as [nm q rp ty ck ch er]; simpl in Hn; subst ch.
    cbn [updateNodeChecked path children]. destruct (q =? p).
    + rewrite !extractCheckedFiles_updateRecursive. split.
      * apply sublist_nil_l.
      * rewrite extractCheckedFiles_refines. apply sublist_selected_files.
    + split; apply sublist_refl.
  - destruct n as [nm q rp ty ck ch er]; simpl in Hn; subst ch.
    cbn [updateNodeChecked path children]. destruct (q =? p).
    + rewrite !extractCheckedFiles_updateRecursive. split.
      * apply sublist_nil_l.
      * rewrite extractCheckedFiles_refines. apply sublist_selected_files.
    + rewrite !extractCheckedFiles_unfold.
      cbn [children name path rel_path type checked error].
      unfold selected; cbn [type checked]. rewrite !flat_map_concat_map.
      rewrite !map_map. rewrite <- !flat_map_concat_map.
      split; (apply sublist_app; [apply sublist_refl|]);
        apply sublist_flat_map;
        (eapply Forall_impl; [|exact IH]); simpl; intros c Hc; apply Hc.
Qed.

Lemma within_below (n : FileNode) (pos pos' : list nat) :
  forall t, node_at pos t = Some n -> within (path n) (pos ++ pos') t = true.
Proof.
  induction pos as [|i pos IH]; intros t H.
  - injection H as ->. destruct pos'; simpl; now rewrite String.eqb_refl.
  - cbn [app within]. destruct (path t =? path n); [reflexivity|].
    cbn [node_at] in H.
    destruct (children t) as [cs|]; [|discriminate].
    destruct (nth_error cs i) as [c|]; [|discriminate].
    now apply IH.
Qed.

End More.

End SelectionTreeProps.

(** ** The page *)

Module ConsoleProps.
Import Browser Console Scenario.

Lemma handles_of_app (l l' : list Action) :
  handles_of (l ++ l') = handles_of l ++ handles_of l'.
Proof. unfold handles_of. apply flat_map_app. Qed.

Lemma count_telemetry_app (l l' : list Action) :
  count_telemetry (l ++ l') = count_telemetry l + count_telemetry l'.
Proof. unfold count_telemetry. now rewrite filter_app, length_app. Qed.

(** *** [slice(-n)] *)

Lemma slice_last_length (A : Type) (n : nat) (l : list A) :
  List.length (slice_last n l) <= n.
Proof. unfold slice_last. rewrite length_skipn. lia. Qed.

Lemma slice_last_short (A : Type) (n : nat) (l : list A) :
  List.length l <= n -> slice_last n l = l.
Proof.
  unfold slice_last. intros H.
  replace (List.length l - n) with 0 by lia. reflexivity.
Qed.

(** Truncating before an append loses nothing the final truncation keeps. *)
Lemma slice_last_app (A : Type) (n : nat) (l b : list A) :
  slice_last n (slice_last n l ++ b) = slice_last n (l ++ b).
Proof.
  unfold slice_last. rewrite !length_app, length_skipn.
  set (k := List.length l - n).
  replace (List.length l + List.length b - n)
    with ((List.length l - k + List.length b - n) + k) by lia.
  rewrite <- skipn_skipn. f_equal.
  rewrite skipn_app. replace (k - List.length l) with 0 by lia.
  reflexivity.
Qed.

Lemma onSettled_length (r : Settled Api.InspectionBody)
    (prev : list InspectionFrame) :
  List.length prev <= 50 ->
  List.length (ThoughtStream.onSettled r prev) <= 50.
Proof.
  intros H. unfold ThoughtStream.onSettled, ThoughtStream.keepLast.
  destruct r as [d|e]; [|exact H].
  destruct (Api.frames d) as [[|f fs]|]; try exact H.
  apply slice_last_length.
Qed.

(** What the inspector makes of a settled request, in terms of the frames
    it delivered. *)
Lemma onSettled_delivered (res : Fetched Api.InspectionBody)
    (prev : list InspectionFrame) :
  List.length prev <= 50 ->
  ThoughtStream.onSettled (Api.getInspectionFrames res) prev =
  slice_last 50 (prev ++ delivered res).
Proof.
  intros H. unfold ThoughtStream.onSettled, ThoughtStream.keepLast, delivered.
  destruct (Api.getInspectionFrames res) as [d|e].
  - destruct (Api.frames d) as [[|f fs]|]; try reflexivity;
      rewrite app_nil_r; symmetry; now apply slice_last_short.
  - rewrite app_nil_r; symmetry; now apply slice_last_short.
Qed.

(** What [pollingEffect] returns. *)
Lemma pollingEffect_cases (n h : nat) (b : bool) :
  ThoughtStream.pollingEffect n h b =
  if b then (Some (mkTimer h 800 (n + 800)), S h, [SetInterval h 800])
  else (None, h, []).
Proof. now destruct b. Qed.

(** A render of a view that already matches its inspector changes nothing. *)
Lemma render_synced (w : World) (iv : IngestView.State) :
  stream_synced iv ->
  render w iv = mkWorld (now w) (next_handle w) (actions w) (Some iv).
Proof.
  unfold stream_synced, render.
  destruct (IngestView.inspector iv) as [ts|].
  - intros [-> ->]. now rewrite Bool.eqb_reflx.
  - now intros ->.
Qed.

(** The cases of a render: whether the inspector is on the page, was on
    it before, and whether its dependency changed. *)
Ltac render_cases iv :=
  unfold render;
  destruct (IngestView.showInspector iv) eqn:?Hshow;
  destruct (IngestView.inspector iv) as [?ts|] eqn:?Hinsp;
  try match goal with
    | |- context [Bool.eqb ?a ?b] => destruct (Bool.eqb a b) eqn:?Hdep
    end;
  rewrite ?pollingEffect_cases;
  destruct (is_running (IngestView.status iv)) eqn:?Hrun;
  cbn [fst snd].

Lemma render_now (w : World) (iv : IngestView.State) :
  now (render w iv) = now w.
Proof. render_cases iv; reflexivity. Qed.

(** A render keeps the view's own cells and decides the inspector. *)
Lemma render_view (w : World) (iv : IngestView.State) :
  exists i, view (render w iv) = Some (IngestView.setInspector i iv).
Proof.
  render_cases iv; simpl; try (eexists; reflexivity);
    exists (IngestView.inspector iv); destruct iv; reflexivity.
Qed.

(** A render calls [setInterval] and [clearInterval] and nothing else. *)
Lemma render_actions (w : World) (iv : IngestView.State) :
  exists acts,
    added w (render w iv) acts /\
    Forall (fun a => match a with
                     | SetInterval _ _ | ClearInterval _ => True
                     | _ => False
                     end) acts.
Proof.
  unfold added.
  render_cases iv; simpl;
    try (exists []; split; [now rewrite app_nil_r | constructor]);
    try (eexists; split; [reflexivity|]);
    try destruct (ThoughtStream.interval _); simpl;
    repeat constructor.
Qed.

Lemma render_wf (w : World) (iv : IngestView.State) :
  Forall (fun h => h < next_handle w) (issued_handles w) ->
  timer_ok w 1000 (IngestView.poller iv) ->
  stream_held w (IngestView.inspector iv) ->
  wf (render w iv).
Proof.
  intros Hh Hp Hs. unfold wf, issued_handles.
  assert (Hlt : forall n, Forall (fun h => h < n) (handles_of (actions w)) ->
                 forall m, n <= m -> Forall (fun h => h < m) (handles_of (actions w))).
  { intros n H m Hm. eapply Forall_impl; [|exact H]. simpl; intros; lia. }
  unfold timer_ok in Hp.
  render_cases iv; simpl; rewrite ?handles_of_app, ?Forall_app;
    unfold stream_synced, timer_ok, ThoughtStream.cleanup in *;
    rewrite ?Hinsp, ?Hshow in *; simpl in *;
    repeat match goal with
      | |- context [ThoughtStream.interval ?t] =>
          destruct (ThoughtStream.interval t) eqn:?Hiv
      | H : Bool.eqb _ _ = true |- _ => apply Bool.eqb_prop in H
      | H : Bool.eqb _ _ = false |- _ => apply Bool.eqb_false_iff in H
      end;
    simpl in *;
    repeat match goal with
      | |- _ /\ _ => split
      | |- Forall _ [] => constructor
      | |- Forall _ (_ :: _) => constructor
      | |- Forall _ (handles_of _) => eapply Hlt; [exact Hh|]
      end; simpl; try tauto; try lia; try congruence.
Qed.

(** *** What the handlers touch *)

Ltac dispatch_cases e iv :=
  destruct e; simpl;
  unfold IngestView.poll_settled, IngestView.handleScan,
    IngestView.handleScan_settled, IngestView.handleToggleCheck,
    IngestView.handleStartIngest_settled, framesSettled;
  repeat match goal with
    | |- context [match ?x with _ => _ end] => destruct x eqn:?
    end;
  try (destruct iv; reflexivity); try reflexivity; try assumption.

Lemma dispatch_poller (e : Event) (iv : IngestView.State) :
  IngestView.poller (fst (dispatch e iv)) = IngestView.poller iv.
Proof. dispatch_cases e iv. Qed.

Lemma dispatch_showInspector (e : Event) (iv : IngestView.State) :
  IngestView.showInspector (fst (dispatch e iv)) =
  match e with
  | ClickInspector => negb (IngestView.showInspector iv)
  | IngestSettled res =>
      match Api.executeIngest res with
      | Resolved _ => true
      | Rejected _ => IngestView.showInspector iv
      end
  | _ => IngestView.showInspector iv
  end.
Proof. dispatch_cases e iv. Qed.

(** Only a settled telemetry request writes the inspector, and only its
    frame buffer. *)
Lemma dispatch_inspector (e : Event) (iv : IngestView.State) :
  IngestView.inspector (fst (dispatch e iv)) =
  match e, IngestView.inspector iv with
  | FramesSettled res, Some ts =>
      if Nat.eqb (ThoughtStream.pulled ts) 0 then Some ts
      else
        Some (ThoughtStream.mkState (ThoughtStream.isRunning ts)
                (ThoughtStream.onSettled (Api.getInspectionFrames res)
                   (ThoughtStream.frames ts))
                (ThoughtStream.interval ts)
                (ThoughtStream.pulled ts))
  | _, i => i
  end.
Proof. dispatch_cases e iv. Qed.

(** No handler touches a timer or pulls telemetry. *)
Lemma dispatch_actions (e : Event) (iv : IngestView.State) :
  Forall (fun a => match a with
                   | SetInterval _ _ | ClearInterval _
                   | Fetch GetInspectionFrames | Fetch GetIngestStatus => False
                   | _ => True
                   end) (snd (dispatch e iv)).
Proof.
  destruct e; simpl;
    unfold IngestView.poll_settled, IngestView.handleScan,
      IngestView.handleScan_settled, IngestView.handleStartIngest_settled,
      IngestView.handleStartIngest;
    repeat match goal with
      | |- context [match ?x with _ => _ end] => destruct x eqn:?
      | |- context [if ?x then _ else _] => destruct x eqn:?
      end; simpl; repeat constructor.
Qed.

(** *** The invariant holds in every reachable world *)

Lemma handles_below_mono (l : list nat) (n m : nat) :
  n <= m -> Forall (fun h => h < n) l -> Forall (fun h => h < m) l.
Proof.
  intros Hnm H. eapply Forall_impl; [|exact H]. simpl; intros; lia.
Qed.

Lemma dispatch_handles (e : Event) (iv : IngestView.State) :
  handles_of (snd (dispatch e iv)) = [].
Proof.
  pose proof (dispatch_actions e iv) as H.
  induction H as [|a l Ha _ IH]; [reflexivity|].
  unfold handles_of in *; simpl. rewrite IH.
  destruct a; simpl; try reflexivity; contradiction.
Qed.

Lemma dispatch_count_telemetry (e : Event) (iv : IngestView.State) :
  count_telemetry (snd (dispatch e iv)) = 0.
Proof.
  pose proof (dispatch_actions e iv) as H.
  induction H as [|a l Ha _ IH]; [reflexivity|].
  unfold count_telemetry in *; simpl.
  destruct a as [[| | |]| | | |]; simpl; try exact IH; contradiction.
Qed.

Lemma commit_wf (w : World) (e : Event) (iv : IngestView.State) :
  wf w -> view w = Some iv -> wf (commit w (dispatch e iv)).
Proof.
  intros [Hh Hv] Hiv. rewrite Hiv in Hv. destruct Hv as (Hp & Hs & _).
  unfold commit. apply render_wf.
  - unfold issued_handles in *; simpl.
    now rewrite handles_of_app, dispatch_handles, app_nil_r.
  - rewrite dispatch_poller. exact Hp.
  - rewrite dispatch_inspector.
    assert (Hs' : stream_held w (IngestView.inspector iv)) by exact Hs.
    destruct e; try exact Hs.
    destruct (IngestView.inspector iv) as [ts|]; [|exact I].
    destruct (Nat.eqb (ThoughtStream.pulled ts) 0); [exact Hs|].
    simpl in *. destruct Hs as [Hl Hi]. split; [|exact Hi].
    now apply onSettled_length.
Qed.

Lemma mount_wf (db : option string) (w : World) :
  wf w -> wf (mount db w).
Proof.
  intros [Hh _]. unfold mount. apply render_wf.
  - unfold issued_handles in *; simpl.
    rewrite handles_of_app, Forall_app; simpl. split.
    + eapply handles_below_mono; [|exact Hh]. lia.
    + repeat constructor.
  - unfold timer_ok; simpl. repeat split; lia.
  - exact I.
Qed.

Lemma unmount_wf (w : World) (iv : IngestView.State) :
  wf w -> wf (unmount w iv).
Proof.
  intros [Hh _]. unfold unmount, wf, issued_handles in *; simpl.
  split; [|exact I].
  rewrite !handles_of_app, !Forall_app. split; [exact Hh|].
  unfold handles_of; simpl.
  destruct (IngestView.inspector iv) as [ts|]; [|constructor].
  unfold ThoughtStream.cleanup.
  destruct (ThoughtStream.interval ts); constructor.
Qed.

(** Re-arming a timer that has just fired keeps it well-formed. *)
Lemma rearm_ok (w w' : World) (per : nat) (t : Timer) :
  now w' = S (now w) -> next_handle w' = next_handle w -> 0 < per ->
  timer_ok w per t ->
  timer_ok w' per (if Nat.leb (due t) (S (now w)) then rearm t else t).
Proof.
  unfold timer_ok. intros Hn Hh Hper (H1 & H2 & H3 & H4).
  rewrite Hn, Hh.
  destruct (Nat.leb (due t) (S (now w))) eqn:Hd.
  - apply Nat.leb_le in Hd. unfold rearm; simpl. repeat split; lia.
  - apply Nat.leb_gt in Hd. repeat split; lia.
Qed.

Lemma tick_wf (w : World) : wf w -> wf (tick w).
Proof.
  intros [Hh Hv]. unfold tick, wf, issued_handles in *.
  destruct (view w) as [iv|]; [|simpl; split; [exact Hh | exact I]].
  destruct Hv as (Hp & Hs & Hy).
  set (w1 := mkWorld (S (now w)) (next_handle w) (actions w) None).
  pose proof (@rearm_ok w w1 1000 (IngestView.poller iv) eq_refl eq_refl
                ltac:(lia) Hp) as Hp'.
  destruct (Nat.leb (due (IngestView.poller iv)) (S (now w))) eqn:Hd;
    unfold stream_held, stream_synced in *;
    destruct (IngestView.inspector iv) as [ts|] eqn:Hi;
    try destruct (ThoughtStream.interval ts) as [ti|] eqn:Hti;
    try (pose proof (@rearm_ok w w1 800 ti eq_refl eq_refl ltac:(lia)
                       (proj2 (proj2 Hs))) as Ht';
         destruct (Nat.leb (due ti) (S (now w))) eqn:Hdt);
    destruct iv; simpl in *; subst;
    rewrite ?handles_of_app, ?Forall_app; simpl;
    rewrite ?Hti; simpl;
    repeat match goal with
      | |- _ /\ _ => split
      | |- Forall _ [] => constructor
      end; try tauto; try assumption.
Qed.

(** A late answer records an alert or a console message, or nothing. *)
Lemma late_actions_cases (e : Event) :
  Forall (fun a => match a with
                   | Alert _ | ConsoleError _ _ => True
                   | _ => False
                   end) (late_actions e).
Proof.
  destruct e; simpl; try constructor;
    match goal with
    | |- context [match ?x with _ => _ end] => destruct x
    end; repeat constructor.
Qed.

Lemma late_actions_sat (P : Action -> Prop) (e : Event) :
  (forall m, P (Alert m)) -> (forall m x, P (ConsoleError m x)) ->
  Forall P (late_actions e).
Proof.
  intros Ha Hc. eapply Forall_impl; [|apply late_actions_cases].
  intros a. destruct a; simpl; auto; contradiction.
Qed.

Lemma late_handles (e : Event) : handles_of (late_actions e) = [].
Proof.
  pose proof (late_actions_cases e) as H.
  induction H as [|a l Ha _ IH]; [reflexivity|].
  unfold handles_of in *; simpl. rewrite IH.
  destruct a; simpl; try reflexivity; contradiction.
Qed.

(** No late answer is a request. *)
Lemma late_actions_filter (p : Action -> bool) (e : Event) :
  (forall m, p (Alert m) = false) ->
  (forall m x, p (ConsoleError m x) = false) ->
  filter p (late_actions e) = [].
Proof.
  intros Ha Hc. pose proof (late_actions_cases e) as H.
  induction H as [|a l Hx _ IH]; [reflexivity|].
  simpl. rewrite IH.
  destruct a; try contradiction; now rewrite ?Ha, ?Hc.
Qed.

Lemma record_late_filter (p : Action -> bool) (e : Event) (w : World) :
  (forall m, p (Alert m) = false) ->
  (forall m x, p (ConsoleError m x) = false) ->
  filter p (actions (record w (late_actions e))) = filter p (actions w).
Proof.
  intros Ha Hc. unfold record. cbn [actions].
  rewrite filter_app, (late_actions_filter p e Ha Hc). apply app_nil_r.
Qed.

Lemma record_late_wf (e : Event) (w : World) :
  view w = None -> wf w -> wf (record w (late_actions e)).
Proof.
  intros Hv [Hh _]. unfold wf, record, issued_handles in *; simpl.
  rewrite Hv. split; [|exact I].
  now rewrite handles_of_app, late_handles, app_nil_r.
Qed.

Lemma step_wf (e : Event) (w : World) : wf w -> wf (step e w).
Proof.
  intros H. unfold step. destruct (view w) as [iv|] eqn:Hv.
  - destruct e; try (apply commit_wf; assumption).
    + exact H.
    + now apply unmount_wf.
    + now apply tick_wf.
  - destruct e; try exact H; try (now apply record_late_wf).
    + now apply mount_wf.
    + now apply tick_wf.
Qed.

Lemma initial_wf : wf initial.
Proof. split; [constructor | exact I]. Qed.

Lemma reachable_wf (w : World) : reachable w -> wf w.
Proof.
  induction 1 as [|w e _ IH]; [exact initial_wf | now apply step_wf].
Qed.

Lemma reachable_run (es : list Event) :
  forall w, reachable w -> reachable (run es w).
Proof.
  induction es as [|e es IH]; intros w H; [exact H|].
  simpl. apply IH. now constructor.
Qed.

(** *** Steps that leave the page as it is *)

Lemma world_eta (w : World) :
  mkWorld (now w) (next_handle w) (actions w) (view w) = w.
Proof. now destruct w. Qed.

Lemma step_handler (w : World) (iv : IngestView.State) (e : Event) :
  view w = Some iv -> runs_handler e = true ->
  step e w = commit w (dispatch e iv).
Proof.
  intros Hiv He. unfold step. rewrite Hiv. now destruct e.
Qed.

Lemma step_tick (w : World) : step Tick w = tick w.
Proof. unfold step. now destruct (view w). Qed.

Lemma commit_view (w : World) (r : IngestView.State * list Action) :
  exists i, view (commit w r) = Some (IngestView.setInspector i (fst r)).
Proof. unfold commit. apply render_view. Qed.

Lemma tick_view (w : World) (iv : IngestView.State) :
  view w = Some iv ->
  exists i p,
    view (tick w) = Some (IngestView.setInspector i (IngestView.setPoller p iv)) /\
    handle p = handle (IngestView.poller iv).
Proof.
  intros Hiv. unfold tick. rewrite Hiv.
  destruct (Nat.leb (due (IngestView.poller iv)) (S (now w)));
    destruct (IngestView.inspector iv) as [ts|];
    try destruct (ThoughtStream.interval ts) as [ti|];
    try destruct (Nat.leb (due ti) (S (now w)));
    do 2 eexists; split; reflexivity.
Qed.

Lemma step_poller_handle (w : World) (iv : IngestView.State) (e : Event) :
  view w = Some iv -> e <> Unmount ->
  exists iv', view (step e w) = Some iv' /\
              handle (IngestView.poller iv') = handle (IngestView.poller iv).
Proof.
  intros Hiv He. destruct (runs_handler e) eqn:Hh.
  - rewrite (step_handler w e Hiv Hh).
    destruct (commit_view w (dispatch e iv)) as [i Hi]. rewrite Hi.
    eexists; split; [reflexivity|].
    pose proof (dispatch_poller e iv) as Hp.
    destruct (fst (dispatch e iv)); simpl in *. now rewrite Hp.
  - destruct e; try discriminate; try congruence.
    + unfold step. rewrite Hiv. eexists; split; [exact Hiv | reflexivity].
    + unfold step. rewrite Hiv.
      destruct (tick_view w Hiv) as (i & p & Hv & Hp). rewrite Hv.
      eexists; split; [reflexivity|]. destruct iv; exact Hp.
Qed.

(** A handler that writes no cell: the step only records what it did. *)
Lemma step_records (w : World) (iv : IngestView.State) (e : Event)
    (acts : list Action) :
  wf w -> view w = Some iv -> runs_handler e = true ->
  dispatch e iv = (iv, acts) ->
  step e w = mkWorld (now w) (next_handle w) (actions w ++ acts) (Some iv).
Proof.
  intros [_ Hv] Hiv He Hd. rewrite Hiv in Hv. destruct Hv as (_ & _ & Hy).
  rewrite (step_handler w e Hiv He). unfold commit. rewrite Hd.
  now rewrite render_synced.
Qed.

Lemma framesSettled_unchanged (res : Fetched Api.InspectionBody)
    (iv : IngestView.State) :
  (forall prev, ThoughtStream.onSettled (Api.getInspectionFrames res) prev = prev) ->
  framesSettled res iv = iv.
Proof.
  intros H. unfold framesSettled.
  destruct iv as [a b c d e f g h [ts|]]; simpl; [|reflexivity].
  destruct (Nat.eqb (ThoughtStream.pulled ts) 0); [reflexivity|].
  rewrite H. now destruct ts.
Qed.

(** C8. A telemetry pull that fails, be it that the request is rejected,
    that the body cannot be read, or that the server answers with an error
    status, leaves the world exactly as it was: the frame buffer, the
    interval and its period are the same, and nothing is recorded, neither
    an alert nor a console message nor a cancelled timer; the component has
    no cell in which an error could be kept. *)
Theorem telemetry_failure_is_silent (w : World)
    (res : Fetched Api.InspectionBody) :
  reachable w ->
  (exists e, Api.getInspectionFrames res = Rejected e) \/
  (exists r, res = Resolved r /\ ok r = false) ->
  step (FramesSettled res) w = w.
Proof.
  intros Hr Hfail. apply reachable_wf in Hr.
  destruct (view w) as [iv|] eqn:Hiv;
    [|unfold step; now rewrite Hiv].
  rewrite (@step_records w iv (FramesSettled res) [] Hr Hiv eq_refl).
  - rewrite app_nil_r, <- Hiv. apply world_eta.
  - simpl. f_equal. apply framesSettled_unchanged. intros prev.
    destruct Hfail as [[e He] | (r & -> & Hok)].
    + now rewrite He.
    + simpl. now rewrite Hok.
Qed.

Lemma staged_reachable : reachable staged.
Proof. apply reachable_run. constructor. Qed.

Lemma running_reachable : reachable running.
Proof. constructor. constructor. exact staged_reachable. Qed.

Lemma pulling_reachable : reachable pulling.
Proof. apply reachable_run. exact running_reachable. Qed.

Lemma telemetry_failure_is_silent_witness :
  step (FramesSettled (offline Api.InspectionBody)) running = running /\
  buffer (run [FramesSettled (batch [frame 1; frame 2])] pulling) =
    [frame 1; frame 2] /\
  step (FramesSettled (offline Api.InspectionBody))
    (run [FramesSettled (batch [frame 1; frame 2])] pulling) =
  run [FramesSettled (batch [frame 1; frame 2])] pulling.
Proof.
  split; [|split].
  - apply (@telemetry_failure_is_silent running (offline Api.InspectionBody)
             running_reachable).
    left. eexists. reflexivity.
  - vm_compute. reflexivity.
  - apply (@telemetry_failure_is_silent
             (run [FramesSettled (batch [frame 1; frame 2])] pulling)
             (offline Api.InspectionBody)).
    + apply reachable_run. exact pulling_reachable.
    + left. eexists. reflexivity.
Defined.

(** C7, on an answer for which the code departs from the specification:
    a failed status pull that is not logged and does not leave the
    snapshot alone.  [getIngestStatus] reads the body whatever the status
    of the response is: unlike [scanPath], [executeIngest], [createKB] and
    [getInspectionFrames] it does not test [res.ok].  So when the server
    answers the status request with an error status and a body that reads
    as JSON, [poll] takes the body for the new snapshot.  Here the view
    holds a snapshot that says running and the answer is a 500 whose body
    says idle: the pull has failed, yet the snapshot held is replaced,
    nothing is logged, and the telemetry interval is cancelled on the
    strength of it. *)
Theorem status_error_answer_replaces_snapshot :
  Api.getIngestStatus (failed_status (mkIngestStatus false "" 0 0 0 [])) =
    Resolved (mkIngestStatus false "" 0 0 0 []) /\
  option_map IngestView.status (view running) =
    Some (mkIngestStatus true "a.py" 0 0 2 []) /\
  option_map IngestView.status
    (view (step (StatusSettled (failed_status (mkIngestStatus false "" 0 0 0 [])))
             running)) =
    Some (mkIngestStatus false "" 0 0 0 []) /\
  actions (step (StatusSettled (failed_status (mkIngestStatus false "" 0 0 0 [])))
             running) =
    actions running ++ [ClearInterval 2].
Proof. repeat split. Qed.

(** *** Telemetry requests are issued by the interval alone *)

Lemma timer_calls_pull_nothing (acts : list Action) :
  Forall (fun a => match a with
                   | SetInterval _ _ | ClearInterval _ => True
                   | _ => False
                   end) acts ->
  count_telemetry acts = 0.
Proof.
  induction 1 as [|a l Ha _ IH]; [reflexivity|].
  unfold count_telemetry in *. destruct a; simpl; try contradiction; exact IH.
Qed.

Lemma render_telemetry_pulls (w : World) (iv : IngestView.State) :
  telemetry_pulls (render w iv) = telemetry_pulls w.
Proof.
  destruct (render_actions w iv) as (acts & Ha & Hf).
  unfold telemetry_pulls, added in *. rewrite Ha.
  fold (count_telemetry (actions w ++ acts)).
  rewrite count_telemetry_app, (timer_calls_pull_nothing Hf).
  unfold count_telemetry. lia.
Qed.

Lemma commit_telemetry_pulls (w : World) (e : Event) (iv : IngestView.State) :
  telemetry_pulls (commit w (dispatch e iv)) = telemetry_pulls w.
Proof.
  unfold commit. rewrite render_telemetry_pulls.
  unfold telemetry_pulls; simpl.
  fold (count_telemetry (actions w ++ snd (dispatch e iv))).
  rewrite count_telemetry_app, dispatch_count_telemetry.
  unfold count_telemetry. lia.
Qed.

(** Every event but the passing of time leaves the number of telemetry
    pulls as it is. *)
Lemma step_telemetry_pulls (e : Event) (w : World) :
  e <> Tick -> telemetry_pulls (step e w) = telemetry_pulls w.
Proof.
  intros He. unfold step. destruct (view w) as [iv|] eqn:Hiv.
  - destruct e; try congruence; try apply commit_telemetry_pulls.
    unfold unmount, telemetry_pulls; simpl.
    rewrite !filter_app, !length_app; simpl.
    destruct (IngestView.inspector iv) as [ts|]; simpl; [|lia].
    destruct (ThoughtStream.interval ts); simpl; lia.
  - destruct e; try congruence;
      try (unfold telemetry_pulls; now rewrite record_late_filter).
    unfold mount. rewrite render_telemetry_pulls.
    unfold telemetry_pulls; simpl. rewrite filter_app, length_app; simpl. lia.
Qed.

(** *** Starting a job *)

Lemma selection_empty_no_request (iv : IngestView.State) :
  IngestView.noActiveDB iv = true \/ IngestView.selection iv = [] ->
  IngestView.handleStartIngest iv =
  if IngestView.noActiveDB iv
  then [Alert "Please select a Knowledge Base first!"] else [].
Proof.
  unfold IngestView.noActiveDB, IngestView.selection,
    IngestView.handleStartIngest.
  destruct (IngestView.activeDB iv) as [db|]; [|reflexivity].
  destruct (db =? ""); [reflexivity|].
  intros [H|H]; [discriminate|].
  destruct (IngestView.tree iv) as [t|]; [|reflexivity].
  now rewrite H.
Qed.

(** C5, as the code has it.  When the start handler runs with no knowledge
    base chosen or with nothing selected, no request is issued and no cell
    of the view changes.  The missing knowledge base is reported with an
    alert; the empty selection is not reported at all: the handler
    returns, and the only trace of the condition is the disabled start
    button. *)
Theorem startJob_rejected_locally (w : World) (iv : IngestView.State) :
  reachable w -> view w = Some iv ->
  IngestView.noActiveDB iv = true \/ IngestView.selection iv = [] ->
  step ClickStart w =
  mkWorld (now w) (next_handle w)
    (actions w ++
     (if IngestView.noActiveDB iv
      then [Alert "Please select a Knowledge Base first!"] else []))
    (Some iv)
  /\ IngestView.isStartDisabled iv = true.
Proof.
  intros Hr Hiv Hc. split.
  - apply step_records; auto using reachable_wf.
    simpl. now rewrite selection_empty_no_request.
  - unfold IngestView.isStartDisabled.
    destruct Hc as [H|H]; rewrite H; simpl;
      now rewrite ?orb_true_r.
Qed.

Lemma nothing_selected_reachable : reachable nothing_selected.
Proof. constructor. exact staged_reachable. Qed.

Lemma startJob_rejected_locally_witness :
  step ClickStart nothing_selected = nothing_selected.
Proof.
  destruct (view nothing_selected) as [iv|] eqn:Hiv; [|discriminate].
  pose proof (@startJob_rejected_locally nothing_selected iv
                nothing_selected_reachable Hiv) as H.
  vm_compute in Hiv. injection Hiv as <-.
  destruct (H (or_intror eq_refl)) as [H1 _].
  rewrite H1. reflexivity.
Defined.

(** C5, against the specification's wording: with a knowledge base chosen
    and nothing selected the handler reports nothing. *)
Lemma startJob_empty_selection_unreported :
  option_map IngestView.selection (view nothing_selected) = Some [] /\
  option_map IngestView.noActiveDB (view nothing_selected) = Some false /\
  filter is_alert (actions (step ClickStart nothing_selected)) = [].
Proof. repeat split; vm_compute; reflexivity. Qed.

(** In a well-formed world the telemetry interval is live exactly when the
    inspector is on the page and the snapshot says running. *)
Lemma telemetry_timer_iff (w : World) :
  wf w ->
  (telemetry_timer w <> None <->
   stream w <> None /\ observed_running w = true).
Proof.
  intros [_ Hv]. unfold telemetry_timer, stream, observed_running.
  destruct (view w) as [iv|]; [|split; [congruence | tauto]].
  destruct Hv as (_ & Hs & Hy). unfold stream_synced in Hy.
  destruct (IngestView.inspector iv) as [ts|]; [|split; [congruence | tauto]].
  simpl in Hs. destruct Hs as [_ Hs]. destruct Hy as [_ Hy].
  destruct (ThoughtStream.interval ts) as [t|].
  - destruct Hs as [Hs _]. split; [|congruence].
    intros _. split; [congruence|]. now rewrite <- Hy.
  - split; [congruence|]. intros [_ H]. congruence.
Qed.

(** *** The frame buffer *)

(** A render never writes the frames of an inspector that stays on the
    page, and mounts a new one with none. *)
Lemma render_buffer (w : World) (iv : IngestView.State) :
  buffer (render w iv) =
  if IngestView.showInspector iv then
    match IngestView.inspector iv with
    | Some ts => ThoughtStream.frames ts
    | None => []
    end
  else [].
Proof.
  unfold buffer, stream.
  render_cases iv; simpl; try reflexivity; try now rewrite Hinsp.
Qed.

Lemma render_stream (w : World) (iv : IngestView.State) :
  stream (render w iv) <> None <-> IngestView.showInspector iv = true.
Proof.
  unfold stream.
  render_cases iv; simpl; rewrite ?Hinsp; split; congruence.
Qed.

Lemma tick_buffer (w : World) :
  buffer (tick w) = buffer w /\ (stream (tick w) <> None <-> stream w <> None).
Proof.
  unfold buffer, stream, tick.
  destruct (view w) as [iv|]; [|split; [reflexivity | tauto]].
  destruct (Nat.leb (due (IngestView.poller iv)) (S (now w)));
    destruct (IngestView.inspector iv) as [ts|];
    try destruct (ThoughtStream.interval ts) as [ti|];
    try destruct (Nat.leb (due ti) (S (now w)));
    simpl; split; try reflexivity; split; congruence.
Qed.

(** The buffer of a well-formed world holds at most 50 frames. *)
Lemma wf_buffer (w : World) : wf w -> List.length (buffer w) <= 50.
Proof.
  intros [_ Hv]. unfold buffer, stream.
  destruct (view w) as [iv|]; [|simpl; lia].
  destruct Hv as (_ & Hh & _).
  destruct (IngestView.inspector iv); simpl in *; [tauto | lia].
Qed.

(** One event that keeps the inspector on the page appends what it
    brings and truncates. *)
Lemma step_buffer (w : World) (e : Event) :
  wf w -> stream w <> None -> closes_inspector e = false ->
  stream (step e w) <> None /\
  buffer (step e w) = slice_last 50 (buffer w ++ heard w e).
Proof.
  intros Hwf Hs He.
  pose proof (wf_buffer Hwf) as Hlen.
  assert (Hsame : forall w', stream w' <> None -> buffer w' = buffer w ->
            stream w' <> None /\
            buffer w' = slice_last 50 (buffer w ++ [])).
  { intros w' H1 H2. split; [exact H1|].
    now rewrite app_nil_r, slice_last_short. }
  destruct (view w) as [iv|] eqn:Hiv;
    [|unfold stream in Hs; rewrite Hiv in Hs; congruence].
  destruct (runs_handler e) eqn:Hh.
  - rewrite (@step_handler w iv e Hiv Hh). unfold commit.
    rewrite render_stream, render_buffer, dispatch_showInspector,
      dispatch_inspector.
    destruct Hwf as [_ Hv]. rewrite Hiv in Hv. destruct Hv as (_ & _ & Hy).
    unfold stream_synced in Hy. unfold heard, listening, buffer, stream in *.
    rewrite Hiv in *.
    destruct (IngestView.inspector iv) as [ts|]; [|congruence].
    destruct Hy as [Hshow _]. rewrite Hshow.
    destruct e; try discriminate; simpl;
      try (split; [reflexivity|]);
      rewrite ?app_nil_r; try (symmetry; now apply slice_last_short).
    + destruct (Nat.eqb (ThoughtStream.pulled ts) 0); simpl.
      * rewrite app_nil_r. symmetry. now apply slice_last_short.
      * now apply onSettled_delivered.
    + destruct (Api.executeIngest res); (split; [reflexivity|]);
        symmetry; now apply slice_last_short.
  - unfold heard. destruct e; try discriminate; simpl.
    + unfold step. rewrite Hiv. now apply Hsame.
    + unfold step. rewrite Hiv. destruct (tick_buffer w) as [Hb Hst].
      apply Hsame; [now apply Hst | exact Hb].
Qed.

(** Closing the pane or leaving the page takes the inspector away. *)
Lemma step_closes (w : World) (e : Event) :
  wf w -> stream w <> None -> closes_inspector e = true ->
  stream (step e w) = None.
Proof.
  intros [_ Hv] Hs He. unfold stream, step in *.
  destruct (view w) as [iv|] eqn:Hiv; [|congruence].
  destruct Hv as (_ & _ & Hy). unfold stream_synced in Hy.
  destruct (IngestView.inspector iv) as [ts|] eqn:Hi; [|congruence].
  destruct Hy as [Hshow _].
  destruct e; try discriminate; [reflexivity|].
  unfold commit, dispatch, render; simpl. rewrite Hshow, Hi. reflexivity.
Qed.

(** An inspector that comes onto the page starts with an empty buffer. *)
Lemma step_fresh_buffer (w : World) (e : Event) :
  stream w = None -> buffer (step e w) = [].
Proof.
  intros Hs. unfold step.
  destruct (view w) as [iv|] eqn:Hiv.
  - unfold stream in Hs. rewrite Hiv in Hs.
    destruct e;
      try (unfold commit; rewrite render_buffer, dispatch_inspector, Hs;
           now destruct (IngestView.showInspector _)).
    + unfold buffer, stream. now rewrite Hiv, Hs.
    + reflexivity.
    + destruct (tick_buffer w) as [Hb _]. rewrite Hb.
      unfold buffer, stream. now rewrite Hiv, Hs.
  - destruct e; try (unfold buffer, stream, record; simpl; now rewrite Hiv).
    + unfold mount. now rewrite render_buffer.
    + destruct (tick_buffer w) as [Hb _]. rewrite Hb.
      unfold buffer. now rewrite Hs.
Qed.

(** The buffer is the last 50 of what the inspector has been brought, one
    step further. *)
Lemma step_received (w : World) (e : Event) (h : list InspectionFrame) :
  wf w -> (stream w = None -> h = []) ->
  buffer w = slice_last 50 h ->
  buffer (step e w) =
  slice_last 50 match stream (step e w) with
                | Some _ => h ++ heard w e
                | None => []
                end.
Proof.
  intros Hwf Hnone Hb.
  destruct (stream (step e w)) as [ts'|] eqn:Hs'.
  - destruct (stream w) as [ts|] eqn:Hs.
    + assert (Hs0 : stream w <> None) by congruence.
      destruct (closes_inspector e) eqn:He.
      * rewrite (@step_closes w e Hwf Hs0 He) in Hs'. discriminate.
      * destruct (@step_buffer w e Hwf Hs0 He) as [_ H].
        now rewrite H, Hb, slice_last_app.
    + rewrite (@step_fresh_buffer w e Hs), (Hnone eq_refl).
      unfold heard, listening. rewrite Hs. now destruct e.
  - unfold buffer. now rewrite Hs'.
Qed.

Lemma run_received (es : list Event) :
  forall w h, wf w -> (stream w = None -> h = []) ->
    buffer w = slice_last 50 h ->
    buffer (run es w) = slice_last 50 (received_from h es w).
Proof.
  induction es as [|e es IH]; intros w h Hwf Hnone Hb; [exact Hb|].
  change (run (e :: es) w) with (run es (step e w)).
  cbn [received_from]. apply IH.
  - now apply step_wf.
  - intros Hs. now rewrite Hs.
  - now apply step_received.
Qed.

(** A run of answers to pulls of the inspector on the page. *)
Lemma run_answers (rs : list (Fetched Api.InspectionBody)) :
  forall w, wf w -> listening w = true ->
    listening (run (map FramesSettled rs) w) = true /\
    buffer (run (map FramesSettled rs) w) =
    slice_last 50 (buffer w ++ flat_map delivered rs).
Proof.
  induction rs as [|r rs IH]; intros w Hwf Hl.
  - simpl. split; [exact Hl|]. rewrite app_nil_r. symmetry.
    apply slice_last_short. now apply wf_buffer.
  - assert (Hs : stream w <> None).
    { unfold listening in Hl. destruct (stream w); congruence. }
    destruct (@step_buffer w (FramesSettled r) Hwf Hs eq_refl) as [Hs' Hb].
    assert (Hl' : listening (step (FramesSettled r) w) = true).
    { unfold listening, stream, step in *.
      destruct (view w) as [iv|] eqn:Hiv; [|congruence].
      destruct Hwf as [_ Hv]. rewrite Hiv in Hv. destruct Hv as (_ & _ & Hy).
      unfold commit. cbn [dispatch fst snd].
      rewrite app_nil_r.
      unfold framesSettled.
      destruct (IngestView.inspector iv) as [ts|] eqn:Hi; [|discriminate].
      destruct (Nat.eqb (ThoughtStream.pulled ts) 0) eqn:Hp; [discriminate|].
      unfold stream_synced in Hy. rewrite Hi in Hy. destruct Hy as [Hshow Hrun].
      unfold render. destruct iv; simpl in *. subst.
      rewrite Hrun, Bool.eqb_reflx. simpl. now rewrite Hp. }
    change (run (map FramesSettled (r :: rs)) w)
      with (run (map FramesSettled rs) (step (FramesSettled r) w)).
    destruct (IH _ (step_wf (FramesSettled r) Hwf) Hl') as [Hl'' Hb''].
    split; [exact Hl''|].
    rewrite Hb'', Hb. unfold heard. rewrite Hl.
    cbn [flat_map]. now rewrite slice_last_app, app_assoc.
Qed.

(** An answer to a pull of an inspector that is gone changes nothing, and
    neither does an answer when the inspector on the page has not
    pulled. *)
Lemma stale_answer_lost (w : World) (res : Fetched Api.InspectionBody) :
  wf w ->
  step (LateFramesSettled res) w = w /\
  (listening w = false -> step (FramesSettled res) w = w).
Proof.
  intros Hwf. split.
  - destruct (view w) as [iv|] eqn:Hiv;
      [|unfold step; now rewrite Hiv].
    rewrite (@step_records w iv (LateFramesSettled res) [] Hwf Hiv eq_refl eq_refl).
    rewrite app_nil_r, <- Hiv. apply world_eta.
  - intros Hl. destruct (view w) as [iv|] eqn:Hiv;
      [|unfold step; now rewrite Hiv].
    assert (Hd : dispatch (FramesSettled res) iv = (iv, [])).
    { cbn [dispatch]. unfold framesSettled, listening, stream in *.
      rewrite Hiv in Hl.
      destruct (IngestView.inspector iv) as [ts|]; [|reflexivity].
      destruct (Nat.eqb (ThoughtStream.pulled ts) 0); [reflexivity|discriminate]. }
    rewrite (@step_records w iv (FramesSettled res) [] Hwf Hiv eq_refl Hd).
    rewrite app_nil_r, <- Hiv. apply world_eta.
Qed.

(** *** From its first pull on, an inspector is listening *)

Lemma render_listening (w : World) (iv : IngestView.State) :
  listening (render w iv) =
  if IngestView.showInspector iv then
    match IngestView.inspector iv with
    | Some ts => negb (Nat.eqb (ThoughtStream.pulled ts) 0)
    | None => false
    end
  else false.
Proof.
  unfold listening, stream.
  render_cases iv; simpl; try reflexivity; try now rewrite Hinsp.
Qed.

Lemma tick_listening (w : World) :
  listening (tick w) =
  match telemetry_timer w with
  | Some t => fires w t || listening w
  | None => listening w
  end.
Proof.
  unfold listening, telemetry_timer, stream, tick, fires.
  destruct (view w) as [iv|]; [|reflexivity].
  destruct (Nat.leb (due (IngestView.poller iv)) (S (now w)));
    destruct (IngestView.inspector iv) as [[r f [ti|] n]|];
    cbn [ThoughtStream.interval];
    try destruct (Nat.leb (due ti) (S (now w)));
    reflexivity.
Qed.

Lemma step_listening (w : World) (e : Event) :
  wf w -> listening w = true -> stream (step e w) <> None ->
  listening (step e w) = true.
Proof.
  intros Hwf Hl Hs'.
  assert (Hs : stream w <> None).
  { unfold listening in Hl. destruct (stream w); congruence. }
  destruct (closes_inspector e) eqn:Hc.
  { now rewrite (@step_closes w e Hwf Hs Hc) in Hs'. }
  destruct (view w) as [iv|] eqn:Hiv;
    [|unfold stream in Hs; rewrite Hiv in Hs; congruence].
  destruct (runs_handler e) eqn:Hh.
  - rewrite (@step_handler w iv e Hiv Hh). unfold commit.
    rewrite render_listening, dispatch_showInspector, dispatch_inspector.
    destruct Hwf as [_ Hv]. rewrite Hiv in Hv. destruct Hv as (_ & _ & Hy).
    unfold stream_synced in Hy. unfold listening, stream in Hl.
    rewrite Hiv in Hl.
    destruct (IngestView.inspector iv) as [ts|]; [|discriminate].
    destruct Hy as [Hshow _].
    destruct e; try discriminate; rewrite ?Hshow; try exact Hl.
    + destruct (Nat.eqb (ThoughtStream.pulled ts) 0) eqn:Hp; [discriminate|].
      cbn [ThoughtStream.pulled]. now rewrite Hp.
    + destruct (Api.executeIngest res); exact Hl.
  - destruct e; try discriminate.
    + unfold step. now rewrite Hiv.
    + rewrite step_tick, tick_listening, Hl.
      destruct (telemetry_timer w); [apply orb_true_r | reflexivity].
Qed.

(** C3. Whatever has happened on the page, the frame buffer holds at most
    50 frames, and it is exactly the last 50 of the frames its inspector
    has been brought since it was mounted: the batches of the settled
    pulls one after the other in the order in which they arrived, each in
    the server's order, the oldest frames being the ones dropped.  In
    particular, after any sequence of answers to pulls of the inspector on
    the page the buffer is the last 50 of what it held followed by the
    batches in their order.  An answer to a pull of an inspector that has
    left the page since, or one that comes when the inspector on the page
    has issued no pull, brings nothing and changes nothing; and an
    inspector is brought the answers from the millisecond in which its
    interval first fires, for as long as it stays on the page. *)
Theorem frame_buffer_keeps_last_50 (es : list Event) :
  List.length (buffer (run es initial)) <= 50 /\
  buffer (run es initial) = slice_last 50 (received es) /\
  (forall rs, listening (run es initial) = true ->
     buffer (run (map FramesSettled rs) (run es initial)) =
     slice_last 50 (buffer (run es initial) ++ flat_map delivered rs)) /\
  (forall res,
     step (LateFramesSettled res) (run es initial) = run es initial /\
     (listening (run es initial) = false ->
      step (FramesSettled res) (run es initial) = run es initial)) /\
  (forall t, telemetry_timer (run es initial) = Some t ->
     fires (run es initial) t = true ->
     listening (step Tick (run es initial)) = true) /\
  (forall e, listening (run es initial) = true ->
     stream (step e (run es initial)) <> None ->
     listening (step e (run es initial)) = true).
Proof.
  pose proof (reachable_wf (@reachable_run es initial reach_initial)) as Hwf.
  split; [|split; [|split; [|split; [|split]]]].
  - now apply wf_buffer.
  - unfold received. apply run_received; [exact initial_wf | reflexivity..].
  - intros rs Hl. now apply run_answers.
  - intros res. now apply stale_answer_lost.
  - intros t Ht Hf. now rewrite step_tick, tick_listening, Ht, Hf.
  - intros e. now apply step_listening.
Qed.

Lemma frame_buffer_keeps_last_50_witness :
  buffer
    (run (history ++ repeat Tick 800 ++
          [FramesSettled (batch (map frame (seq 0 30))); Tick;
           FramesSettled (offline Api.InspectionBody);
           FramesSettled (batch (map frame (seq 30 30)))]) initial)
  = map frame (seq 10 50) /\
  buffer
    (run (history ++ repeat Tick 800 ++
          [ClickInspector; ClickInspector;
           FramesSettled (batch (map frame (seq 0 2)));
           LateFramesSettled (batch (map frame (seq 0 2)))]) initial)
  = [].
Proof.
  split.
  - destruct (frame_buffer_keeps_last_50
                (history ++ repeat Tick 800 ++
                 [FramesSettled (batch (map frame (seq 0 30))); Tick;
                  FramesSettled (offline Api.InspectionBody);
                  FramesSettled (batch (map frame (seq 30 30)))]))
      as (_ & H & _).
    rewrite H. vm_compute. reflexivity.
  - destruct (frame_buffer_keeps_last_50
                (history ++ repeat Tick 800 ++
                 [ClickInspector; ClickInspector;
                  FramesSettled (batch (map frame (seq 0 2)));
                  LateFramesSettled (batch (map frame (seq 0 2)))]))
      as (_ & H & _).
    rewrite H. vm_compute. reflexivity.
Defined.

(** *** The telemetry interval *)

(** One millisecond: the live interval pulls when its time has come, and
    is then re-armed one period later. *)
Lemma tick_telemetry (w : World) :
  now (tick w) = S (now w) /\
  next_handle (tick w) = next_handle w /\
  telemetry_timer (tick w) =
    option_map (fun t => if fires w t then rearm t else t) (telemetry_timer w) /\
  telemetry_pulls (tick w) =
    telemetry_pulls w +
    match telemetry_timer w with
    | Some t => if fires w t then 1 else 0
    | None => 0
    end /\
  observed_running (tick w) = observed_running w /\
  (exists acts, added w (tick w) acts /\ handles_of acts = [] /\
                Forall (fun a => match a with ClearInterval _ => False | _ => True end) acts).
Proof.
  unfold telemetry_timer, telemetry_pulls, stream, observed_running, tick,
    fires, added.
  destruct (view w) as [iv|]; cbn [option_map].
  - destruct (Nat.leb (due (IngestView.poller iv)) (S (now w)));
      destruct (IngestView.inspector iv) as [[r f [ti|]]|];
      cbn [option_map ThoughtStream.interval];
      try destruct (Nat.leb (due ti) (S (now w)));
      simpl; rewrite ?filter_app, ?length_app; simpl;
      (split; [reflexivity|]); (split; [reflexivity|]);
      (split; [destruct iv; reflexivity|]); (split; [lia|]);
      (split; [destruct iv; reflexivity|]);
      eexists; (split; [reflexivity|]); (split; [reflexivity|]);
      repeat constructor.
  - simpl. do 3 (split; [reflexivity|]). split; [lia|].
    split; [reflexivity|]. exists []. rewrite app_nil_r.
    split; [reflexivity|]. split; [reflexivity | constructor].
Qed.

(** What a render does to the telemetry interval, given the interval
    [old] the inspector held: it keeps it, cancels it, or cancels it and
    registers a new one under the next free handle. *)
Lemma render_timer (w : World) (iv : IngestView.State) :
  let old := match IngestView.inspector iv with
             | Some ts => ThoughtStream.interval ts
             | None => None
             end in
  (telemetry_timer (render w iv) = old /\ added w (render w iv) []) \/
  (telemetry_timer (render w iv) = None /\
   added w (render w iv) (ThoughtStream.cleanup old)) \/
  (telemetry_timer (render w iv) = Some (mkTimer (next_handle w) 800 (now w + 800)) /\
   added w (render w iv)
     (ThoughtStream.cleanup old ++ [SetInterval (next_handle w) 800]) /\
   is_running (IngestView.status iv) = true /\
   match IngestView.inspector iv with
   | Some ts => ThoughtStream.isRunning ts = false
   | None => True
   end).
Proof.
  intros old; subst old. unfold telemetry_timer, stream, added.
  render_cases iv; simpl; rewrite ?app_nil_r, ?Hinsp;
    try match goal with
      | H : Bool.eqb _ _ = false |- _ => apply Bool.eqb_false_iff in H
      end;
    first
      [ left; split; [reflexivity | reflexivity]
      | right; left; split; [reflexivity | reflexivity]
      | right; right; repeat split; auto;
        destruct (ThoughtStream.isRunning _); congruence ].
Qed.

Lemma dispatch_timer (e : Event) (iv : IngestView.State) :
  match IngestView.inspector (fst (dispatch e iv)) with
  | Some ts => ThoughtStream.interval ts
  | None => None
  end =
  match IngestView.inspector iv with
  | Some ts => ThoughtStream.interval ts
  | None => None
  end.
Proof.
  rewrite dispatch_inspector.
  destruct e; destruct (IngestView.inspector iv) as [ts|]; try reflexivity;
    now destruct (Nat.eqb (ThoughtStream.pulled ts) 0).
Qed.

Lemma dispatch_isRunning (e : Event) (iv : IngestView.State) :
  option_map ThoughtStream.isRunning (IngestView.inspector (fst (dispatch e iv))) =
  option_map ThoughtStream.isRunning (IngestView.inspector iv).
Proof.
  rewrite dispatch_inspector.
  destruct e; destruct (IngestView.inspector iv) as [ts|]; try reflexivity;
    now destruct (Nat.eqb (ThoughtStream.pulled ts) 0).
Qed.

(** What an event other than the passing of time does to the telemetry
    interval: it keeps it, or cancels it with [clearInterval], or, when
    there was none, registers one with [setInterval(.., 800)] under the
    next free handle. *)
Lemma step_timer (w : World) (e : Event) :
  wf w -> e <> Tick ->
  now (step e w) = now w /\
  exists acts,
    added w (step e w) acts /\
    (telemetry_timer (step e w) = telemetry_timer w \/
     (telemetry_timer (step e w) = None /\
      forall t, telemetry_timer w = Some t -> In (ClearInterval (handle t)) acts) \/
     (telemetry_timer w = None /\
      telemetry_timer (step e w) =
        Some (mkTimer (next_handle w) 800 (now w + 800)) /\
      In (SetInterval (next_handle w) 800) acts)).
Proof.
  intros Hwf He.
  destruct (view w) as [iv|] eqn:Hiv.
  - destruct (runs_handler e) eqn:Hh.
    + rewrite (@step_handler w iv e Hiv Hh). unfold commit.
      set (w1 := mkWorld (now w) (next_handle w)
                   (actions w ++ snd (dispatch e iv)) (view w)).
      split; [apply (render_now w1)|].
      pose proof (render_timer w1 (fst (dispatch e iv))) as H.
      cbv zeta in H. rewrite dispatch_timer in H.
      assert (Hold : telemetry_timer w =
                match IngestView.inspector iv with
                | Some ts => ThoughtStream.interval ts
                | None => None
                end)
        by (unfold telemetry_timer, stream; now rewrite Hiv).
      rewrite <- Hold in H. unfold added in *. simpl in H.
      destruct H as [[H1 H2] | [[H1 H2] | (H1 & H2 & H3 & H4)]].
      * eexists; split; [rewrite H2, <- app_assoc; reflexivity|].
        left. exact H1.
      * eexists; split; [rewrite H2, <- app_assoc; reflexivity|].
        right; left. split; [exact H1|].
        intros t Ht. rewrite Ht. apply in_or_app. right. now left.
      * eexists; split; [rewrite H2, <- app_assoc; reflexivity|].
        right; right.
        assert (Hnone : telemetry_timer w = None).
        { rewrite Hold. destruct Hwf as [_ Hv]. rewrite Hiv in Hv.
          destruct Hv as (_ & Hs & _).
          pose proof (dispatch_isRunning e iv) as Hr.
          destruct (IngestView.inspector iv) as [ts|]; [|reflexivity].
          destruct (IngestView.inspector (fst (dispatch e iv))) as [ts'|];
            [|discriminate].
          simpl in Hr. injection Hr as Hr. rewrite H4 in Hr.
          simpl in Hs. destruct Hs as [_ Hs].
          destruct (ThoughtStream.interval ts); [|reflexivity].
          destruct Hs as [Hs _]. congruence. }
        split; [exact Hnone|]. split; [exact H1|].
        apply in_or_app. right. apply in_or_app. right. now left.
    + destruct e; try discriminate; try congruence; unfold step; rewrite Hiv.
      * split; [reflexivity|]. exists []. unfold added.
        rewrite app_nil_r. split; [reflexivity|]. now left.
      * split; [reflexivity|]. eexists. split; [reflexivity|].
        right; left. split; [reflexivity|].
        unfold telemetry_timer, stream. rewrite Hiv.
        intros t Ht. destruct (IngestView.inspector iv) as [ts|]; [|discriminate].
        rewrite Ht. right. now left.
  - assert (Hnone : telemetry_timer w = None)
      by (unfold telemetry_timer, stream; now rewrite Hiv).
    unfold step. rewrite Hiv.
    destruct e; try congruence;
      try (split; [reflexivity|]; exists []; unfold added;
           rewrite app_nil_r; split; [reflexivity|]; now left);
      try (split; [reflexivity|]; eexists; split; [reflexivity|]; now left).
    unfold mount. split; [now rewrite render_now|].
    rewrite Hnone. unfold added, telemetry_timer, stream, render; simpl.
    eexists. split; [rewrite app_nil_r; reflexivity|]. now left.
Qed.

Lemma wf_timer (w : World) (t : Timer) :
  wf w -> telemetry_timer w = Some t -> timer_ok w 800 t.
Proof.
  intros [_ Hv]. unfold telemetry_timer, stream.
  destruct (view w) as [iv|]; [|discriminate].
  destruct Hv as (_ & Hs & _).
  destruct (IngestView.inspector iv) as [ts|]; [|discriminate].
  simpl in Hs. destruct Hs as [_ Hs]. intros Ht. rewrite Ht in Hs. tauto.
Qed.

(** No pull while the snapshot says idle. *)
Lemma run_idle (es : list Event) :
  forall w, wf w -> idle_throughout es w = true ->
    telemetry_pulls (run es w) = telemetry_pulls w.
Proof.
  induction es as [|e es IH]; intros w Hwf Hidle; [reflexivity|].
  simpl in Hidle. apply andb_true_iff in Hidle as [Hnow Hrest].
  apply negb_true_iff in Hnow.
  change (run (e :: es) w) with (run es (step e w)).
  rewrite IH; auto using step_wf.
  assert (Hnone : telemetry_timer w = None).
  { destruct (telemetry_timer w) eqn:Ht; [|reflexivity].
    assert (H : telemetry_timer w <> None) by congruence.
    apply (telemetry_timer_iff Hwf) in H. destruct H; congruence. }
  assert (Hdec : e = Tick \/ e <> Tick) by (destruct e; auto; right; discriminate).
  destruct Hdec as [-> | He]; [|now apply step_telemetry_pulls].
  rewrite step_tick.
  destruct (tick_telemetry w) as (_ & _ & _ & Hp & _).
  rewrite Hp, Hnone. lia.
Qed.

Lemma ticks_cons (e : Event) (es : list Event) :
  ticks (e :: es) = (match e with Tick => 1 | _ => 0 end) + ticks es.
Proof. unfold ticks. now destruct e. Qed.

(** No pull before the slack has run out, whatever else happens. *)
Lemma run_quiet (es : list Event) :
  forall w, wf w -> ticks es < slack w ->
    telemetry_pulls (run es w) = telemetry_pulls w.
Proof.
  induction es as [|e es IH]; intros w Hwf Hlt; [reflexivity|].
  change (run (e :: es) w) with (run es (step e w)).
  rewrite ticks_cons in Hlt.
  assert (Hle : slack w <= 800).
  { unfold slack. destruct (telemetry_timer w) as [t|] eqn:Ht; [|lia].
    destruct (wf_timer Hwf Ht) as (_ & _ & _ & H). lia. }
  assert (Hdec : e = Tick \/ e <> Tick) by (destruct e; auto; right; discriminate).
  destruct Hdec as [-> | He].
  - rewrite step_tick in *.
    destruct (tick_telemetry w) as (Hn & _ & Ht & Hp & _).
    rewrite IH; [|now apply tick_wf|].
    + rewrite Hp. unfold slack in Hlt.
      destruct (telemetry_timer w) as [t|]; [|lia].
      unfold fires. destruct (Nat.leb (due t) (S (now w))) eqn:Hd; [|lia].
      apply Nat.leb_le in Hd. lia.
    + unfold slack in *. rewrite Ht, Hn.
      destruct (telemetry_timer w) as [t|]; simpl; [|lia].
      unfold fires. destruct (Nat.leb (due t) (S (now w))) eqn:Hd.
      * apply Nat.leb_le in Hd. lia.
      * lia.
  - rewrite IH; [now apply step_telemetry_pulls | now apply step_wf |].
    destruct (step_timer Hwf He) as (Hn & acts & _ & Hc).
    assert (Hm : match e with Tick => 1 | _ => 0 end = 0)
      by (destruct e; congruence).
    rewrite Hm in Hlt. simpl in Hlt.
    unfold slack in *. rewrite Hn.
    destruct Hc as [-> | [[-> _] | (_ & -> & _)]]; simpl; lia.
Qed.

(** The pulls of a live interval over [k] milliseconds in which nothing
    else happens: one each time a full period has gone by. *)
Lemma run_ticks (k : nat) :
  forall w t, wf w -> telemetry_timer w = Some t ->
    telemetry_pulls (run (repeat Tick k) w) =
    telemetry_pulls w + (k + 800 - (due t - now w)) / 800.
Proof.
  induction k as [|k IH]; intros w t Hwf Ht;
    destruct (wf_timer Hwf Ht) as (_ & Hper & Hlo & Hhi).
  - change (run (repeat Tick 0) w) with w.
    rewrite Nat.div_small by lia. lia.
  - change (run (repeat Tick (S k)) w) with (run (repeat Tick k) (step Tick w)).
    rewrite step_tick.
    destruct (tick_telemetry w) as (Hn & _ & Ht' & Hp & _).
    rewrite Ht in Ht', Hp. simpl in Ht'.
    rewrite (IH _ _ (tick_wf Hwf) Ht'), Hp, Hn.
    unfold fires. destruct (Nat.leb (due t) (S (now w))) eqn:Hd.
    + apply Nat.leb_le in Hd. unfold rearm; cbn [due]. rewrite Hper.
      replace (k + 800 - (due t + 800 - S (now w))) with k by lia.
      replace (S k + 800 - (due t - now w)) with (k + 1 * 800) by lia.
      rewrite Nat.div_add by lia. lia.
    + apply Nat.leb_gt in Hd.
      replace (S k + 800 - (due t - now w))
        with (k + 800 - (due t - S (now w))) by lia.
      lia.
Qed.

(** *** The answer to the job-start request *)

Lemma submitted_reachable : reachable submitted.
Proof. constructor. exact staged_reachable. Qed.

(** An accepted start sets [showInspector], and the render that follows
    mounts the inspector when the pane was closed. *)
Lemma accepted_start (w : World) (iv : IngestView.State)
    (res : Fetched Api.IngestBody) (b : Api.IngestBody) :
  wf w -> view w = Some iv -> Api.executeIngest res = Resolved b ->
  step (IngestSettled res) w =
  if IngestView.showInspector iv then w
  else if is_running (IngestView.status iv) then
    mkWorld (now w) (S (next_handle w))
      (actions w ++ [SetInterval (next_handle w) 800])
      (Some (IngestView.setInspector
               (Some (ThoughtStream.mkState true []
                        (Some (mkTimer (next_handle w) 800 (now w + 800))) 0))
               (IngestView.setShowInspector true iv)))
  else
    mkWorld (now w) (next_handle w) (actions w)
      (Some (IngestView.setInspector
               (Some (ThoughtStream.mkState false [] None 0))
               (IngestView.setShowInspector true iv))).
Proof.
  intros Hwf Hiv Hb.
  rewrite (@step_handler w iv (IngestSettled res) Hiv eq_refl).
  unfold commit. cbn [dispatch].
  unfold IngestView.handleStartIngest_settled. rewrite Hb.
  cbn [fst snd]. rewrite app_nil_r.
  destruct Hwf as [_ Hv]. rewrite Hiv in Hv. destruct Hv as (_ & _ & Hy).
  unfold stream_synced in Hy.
  destruct iv as [a0 a1 a2 a3 a4 a5 a6 a7 [ts|]]; simpl in Hy.
  - destruct Hy as [-> Hrun]. unfold render, IngestView.setShowInspector; simpl.
    rewrite Hrun, Bool.eqb_reflx. rewrite <- Hiv. apply world_eta.
  - subst a6. unfold render; simpl. rewrite pollingEffect_cases.
    destruct (is_running a5); rewrite ?app_nil_r; reflexivity.
Qed.

(** C6, as the code has it.  When the job-start request succeeds the
    handler sets [showInspector] and nothing else.  With the pane already
    open the page is left exactly as it was.  With the pane closed the
    inspector is mounted with an empty buffer, and its interval is
    registered in that step exactly when the status snapshot the view
    already holds says running; when the snapshot says idle no interval
    is registered, and no telemetry request is issued for as long as the
    snapshot stays idle: the stream is not started ahead of the status
    poll.  Nothing else changes in either case: the tree, the path, the
    model, the snapshot and the status interval are the old ones, and no
    request is issued.  When the request fails the message of the error
    is shown in an alert and nothing else changes: both intervals and
    both states are the old ones. *)
Theorem startJob_settled (w : World) (iv : IngestView.State)
    (res : Fetched Api.IngestBody) :
  reachable w -> view w = Some iv ->
  (forall b, Api.executeIngest res = Resolved b ->
     step (IngestSettled res) w =
     if IngestView.showInspector iv then w
     else if is_running (IngestView.status iv) then
       mkWorld (now w) (S (next_handle w))
         (actions w ++ [SetInterval (next_handle w) 800])
         (Some (IngestView.setInspector
                  (Some (ThoughtStream.mkState true []
                           (Some (mkTimer (next_handle w) 800 (now w + 800))) 0))
                  (IngestView.setShowInspector true iv)))
     else
       mkWorld (now w) (next_handle w) (actions w)
         (Some (IngestView.setInspector
                  (Some (ThoughtStream.mkState false [] None 0))
                  (IngestView.setShowInspector true iv)))) /\
  (forall b, Api.executeIngest res = Resolved b ->
     is_running (IngestView.status iv) = false ->
     stream (step (IngestSettled res) w) <> None /\
     telemetry_timer (step (IngestSettled res) w) = None /\
     forall es, idle_throughout es (step (IngestSettled res) w) = true ->
       telemetry_pulls (run es (step (IngestSettled res) w)) =
       telemetry_pulls w) /\
  (forall e, Api.executeIngest res = Rejected e ->
     step (IngestSettled res) w =
     mkWorld (now w) (next_handle w)
       (actions w ++ [Alert ("Ingest Error: " ++ message e)]) (Some iv)).
Proof.
  intros Hr Hiv. pose proof (reachable_wf Hr) as Hwf.
  split; [|split].
  - intros b Hb. now apply accepted_start with (b := b).
  - intros b Hb Hidle.
    pose proof (step_wf (IngestSettled res) Hwf) as Hwf'.
    assert (Hs : stream (step (IngestSettled res) w) <> None).
    { rewrite (@accepted_start w iv res b Hwf Hiv Hb), Hidle.
      destruct (IngestView.showInspector iv) eqn:Hshow; [|discriminate].
      destruct Hwf as [_ Hv]. rewrite Hiv in Hv. destruct Hv as (_ & _ & Hy).
      unfold stream_synced in Hy. unfold stream. rewrite Hiv.
      destruct (IngestView.inspector iv); [discriminate | congruence]. }
    assert (Hobs : observed_running (step (IngestSettled res) w) = false).
    { rewrite (@accepted_start w iv res b Hwf Hiv Hb), Hidle.
      unfold observed_running.
      destruct (IngestView.showInspector iv); [now rewrite Hiv|].
      destruct iv; exact Hidle. }
    split; [exact Hs|]. split.
    + destruct (telemetry_timer (step (IngestSettled res) w)) eqn:Ht;
        [|reflexivity].
      assert (H : telemetry_timer (step (IngestSettled res) w) <> None)
        by congruence.
      apply (telemetry_timer_iff Hwf') in H. destruct H; congruence.
    + intros es Hes. rewrite (run_idle es Hwf' Hes).
      now apply step_telemetry_pulls.
  - intros e He. apply step_records; auto. simpl.
    unfold IngestView.handleStartIngest_settled. now rewrite He.
Qed.

Lemma startJob_settled_witness :
  step (IngestSettled accepted) submitted = submitted /\
  telemetry_timer (step (IngestSettled accepted) submitted) = None /\
  step (IngestSettled (refused "busy")) submitted =
  mkWorld (now submitted) (next_handle submitted)
    (actions submitted ++ [Alert "Ingest Error: busy"]) (view submitted).
Proof.
  destruct (view submitted) as [iv|] eqn:Hiv; [|discriminate].
  destruct (@startJob_settled submitted iv accepted submitted_reachable Hiv)
    as (Hok & Hidle & _).
  destruct (@startJob_settled submitted iv (refused "busy")
              submitted_reachable Hiv) as (_ & _ & Hko).
  assert (Hiv' : view submitted = Some iv) by exact Hiv.
  vm_compute in Hiv. injection Hiv as <-.
  split; [|split].
  - exact (Hok _ eq_refl).
  - exact (proj1 (proj2 (Hidle _ eq_refl eq_refl))).
  - exact (Hko _ eq_refl).
Defined.

(** C6, against the specification's wording: after a successful start the
    telemetry stream is not active, and stays silent however long one
    waits, until a status poll reports the job as running. *)
Lemma startJob_success_leaves_telemetry_idle :
  existsb is_submission (actions submitted) = true /\
  telemetry_timer (step (IngestSettled accepted) submitted) = None /\
  telemetry_pulls
    (run (repeat Tick 4000) (step (IngestSettled accepted) submitted)) = 0 /\
  telemetry_timer
    (run [IngestSettled accepted; StatusSettled (status_of true)] submitted)
  <> None.
Proof. repeat split; vm_compute; congruence. Qed.

(** C4. In every reachable world the telemetry interval is live exactly
    when the inspector is on the page and the status snapshot says
    running.  Along any run in which the snapshot says idle throughout, no
    telemetry request is issued.  When a step ends with the snapshot
    saying idle, a live interval is gone after it and [clearInterval] has
    been called on its handle.  When there is no live interval and a step
    ends with the inspector on the page and the snapshot saying running,
    that step has called [setInterval(.., 800)]: the interval is live
    after it, under a handle that had never been handed out, and fires a
    full period later.  And an interval that is live after a step is
    either the one that was live before it or such a new one. *)
Theorem telemetry_runs_only_while_running (w : World) :
  reachable w ->
  (telemetry_timer w <> None <->
   stream w <> None /\ observed_running w = true) /\
  (forall es, idle_throughout es w = true ->
     telemetry_pulls (run es w) = telemetry_pulls w) /\
  (forall e t, telemetry_timer w = Some t ->
     observed_running (step e w) = false ->
     telemetry_timer (step e w) = None /\
     exists acts, added w (step e w) acts /\ In (ClearInterval (handle t)) acts) /\
  (forall e, telemetry_timer w = None ->
     stream (step e w) <> None -> observed_running (step e w) = true ->
     telemetry_timer (step e w) =
       Some (mkTimer (next_handle w) 800 (now w + 800)) /\
     ~ In (next_handle w) (issued_handles w) /\
     exists acts, added w (step e w) acts /\
                  In (SetInterval (next_handle w) 800) acts) /\
  (forall e t', telemetry_timer (step e w) = Some t' ->
     (exists t, telemetry_timer w = Some t /\ handle t' = handle t) \/
     (telemetry_timer w = None /\
      t' = mkTimer (next_handle w) 800 (now w + 800) /\
      ~ In (handle t') (issued_handles w) /\
      exists acts, added w (step e w) acts /\ In (SetInterval (handle t') 800) acts)).
Proof.
  intros Hr. pose proof (reachable_wf Hr) as Hwf.
  assert (Hlive : forall e t', telemetry_timer (step e w) = Some t' ->
     (exists t, telemetry_timer w = Some t /\ handle t' = handle t) \/
     (telemetry_timer w = None /\
      t' = mkTimer (next_handle w) 800 (now w + 800) /\
      ~ In (handle t') (issued_handles w) /\
      exists acts, added w (step e w) acts /\ In (SetInterval (handle t') 800) acts)).
  { intros e t' Ht'.
    assert (Hdec : e = Tick \/ e <> Tick) by (destruct e; auto; right; discriminate).
    destruct Hdec as [-> | He].
    + left. rewrite step_tick in Ht'.
      destruct (tick_telemetry w) as (_ & _ & H & _). rewrite H in Ht'.
      destruct (telemetry_timer w) as [t|]; [|discriminate].
      exists t. split; [reflexivity|]. simpl in Ht'. injection Ht' as <-.
      now destruct (fires w t).
    + destruct (step_timer Hwf He) as (_ & acts & Ha & Hc).
      destruct Hc as [Hc | [[Hc _] | (Hc1 & Hc2 & Hc3)]].
      * left. exists t'. split; [congruence | reflexivity].
      * congruence.
      * right. rewrite Hc2 in Ht'. injection Ht' as <-. simpl.
        split; [exact Hc1|]. split; [reflexivity|]. split.
        -- destruct Hwf as [Hh _]. rewrite Forall_forall in Hh.
           intros Hin. apply Hh in Hin. lia.
        -- exists acts. split; assumption. }
  split; [|split; [|split; [|split]]].
  - now apply telemetry_timer_iff.
  - intros es. now apply run_idle.
  - intros e t Ht Hidle.
    assert (Hnone : telemetry_timer (step e w) = None).
    { destruct (telemetry_timer (step e w)) eqn:Ht'; [|reflexivity].
      assert (H : telemetry_timer (step e w) <> None) by congruence.
      apply (telemetry_timer_iff (step_wf e Hwf)) in H. destruct H; congruence. }
    split; [exact Hnone|].
    assert (He : e <> Tick).
    { intros ->. rewrite step_tick in Hnone.
      destruct (tick_telemetry w) as (_ & _ & H & _).
      rewrite H, Ht in Hnone. discriminate. }
    destruct (step_timer Hwf He) as (_ & acts & Ha & Hc).
    exists acts. split; [exact Ha|].
    destruct Hc as [Hc | [[_ Hc] | (Hc & _)]].
    + congruence.
    + now apply Hc.
    + congruence.
  - intros e Hnone Hs Hrun.
    assert (Hsome : telemetry_timer (step e w) <> None)
      by (apply (telemetry_timer_iff (step_wf e Hwf)); split; assumption).
    destruct (telemetry_timer (step e w)) as [t'|] eqn:Ht'; [|congruence].
    destruct (Hlive e t' Ht') as [(t & Ht & _) | (_ & Heq & Hfresh & acts & Ha & Hin)].
    + congruence.
    + subst t'. cbn [handle] in *. split; [reflexivity|].
      split; [exact Hfresh|]. exists acts. split; assumption.
  - exact Hlive.
Qed.

Lemma telemetry_runs_only_while_running_witness :
  telemetry_pulls (run (repeat Tick 4000) submitted) = 0 /\
  telemetry_timer running = Some (mkTimer 2 800 800) /\
  In (SetInterval 2 800) (actions running) /\
  telemetry_timer (step (StatusSettled (status_of false)) running) = None /\
  telemetry_timer
    (run [StatusSettled (status_of false); StatusSettled (status_of true)] running)
  = Some (mkTimer 3 800 800).
Proof.
  destruct (@telemetry_runs_only_while_running submitted submitted_reachable)
    as (_ & Hidle & _ & Hstart & _).
  assert (Hrun : reachable running) by (constructor; exact submitted_reachable).
  destruct (@telemetry_runs_only_while_running running Hrun)
    as (_ & _ & Hstop & _).
  assert (Hoff : reachable (step (StatusSettled (status_of false)) running))
    by (constructor; exact Hrun).
  destruct (@telemetry_runs_only_while_running _ Hoff)
    as (_ & _ & _ & Hagain & _).
  destruct (Hstart (StatusSettled (status_of true)) eq_refl
              ltac:(discriminate) eq_refl) as (Hon & _ & acts & Ha & Hin).
  split; [|split; [|split; [|split]]].
  - rewrite (Hidle (repeat Tick 4000)); vm_compute; reflexivity.
  - exact Hon.
  - unfold added in Ha. change (step (StatusSettled (status_of true)) submitted)
      with running in Ha. rewrite Ha. apply in_or_app. right. exact Hin.
  - destruct (telemetry_timer running) as [t|] eqn:Ht; [|discriminate].
    exact (proj1 (Hstop (StatusSettled (status_of false)) t eq_refl eq_refl)).
  - exact (proj1 (Hagain (StatusSettled (status_of true)) eq_refl
                    ltac:(discriminate) eq_refl)).
Defined.

(** C10. Starting from a reachable world in which the telemetry interval
    is not live: whatever happens, no telemetry request is issued before
    800 milliseconds have passed.  The step that activates the interval
    issues none itself and arms it to fire one period later; if time alone
    passes from there, exactly one request has been issued per full period
    of 800 ms gone by, so none up to 799 ms and the first at 800 ms.  The
    status poller differs: mounting the view issues a status request in
    the mounting step. *)
Theorem telemetry_first_pull_after_one_period (w : World) :
  reachable w -> telemetry_timer w = None ->
  (forall es, ticks es < 800 ->
     telemetry_pulls (run es w) = telemetry_pulls w) /\
  (forall e t, telemetry_timer (step e w) = Some t ->
     period t = 800 /\ due t = now (step e w) + 800 /\
     telemetry_pulls (step e w) = telemetry_pulls w /\
     forall k, telemetry_pulls (run (repeat Tick k) (step e w)) =
               telemetry_pulls w + k / 800) /\
  (forall db, view w = None ->
     status_pulls (step (Mount db) w) = S (status_pulls w) /\
     now (step (Mount db) w) = now w).
Proof.
  intros Hr Hnone. pose proof (reachable_wf Hr) as Hwf.
  split; [|split].
  - intros es Hes. apply run_quiet; [exact Hwf|].
    unfold slack. now rewrite Hnone.
  - intros e t Ht.
    assert (He : e <> Tick).
    { intros ->. rewrite step_tick in Ht.
      destruct (tick_telemetry w) as (_ & _ & H & _).
      rewrite H, Hnone in Ht. discriminate. }
    destruct (step_timer Hwf He) as (Hn & acts & _ & Hc).
    pose proof (@step_telemetry_pulls e w He) as Hp.
    assert (Hd : period t = 800 /\ due t = now (step e w) + 800).
    { destruct Hc as [Hc | [[Hc _] | (_ & Hc & _)]]; try congruence.
      rewrite Hc in Ht. injection Ht as <-. simpl. now rewrite Hn. }
    destruct Hd as [Hper Hdue].
    split; [exact Hper|]. split; [exact Hdue|]. split; [exact Hp|].
    intros k. rewrite (run_ticks k (step_wf e Hwf) Ht), Hp, Hdue.
    do 2 f_equal. lia.
  - intros db Hv. unfold step. rewrite Hv. unfold mount.
    rewrite render_now. split; [|reflexivity].
    destruct (render_actions
                (mkWorld (now w) (S (next_handle w))
                   (actions w ++ [Fetch GetIngestStatus; SetInterval (next_handle w) 1000])
                   None)
                (IngestView.mkState db "" None false "none"
                   IngestView.initialStatus true
                   (mkTimer (next_handle w) 1000 (now w + 1000)) None))
      as (acts & Ha & Hf).
    unfold status_pulls, added in *. rewrite Ha. simpl.
    rewrite !filter_app, !length_app. simpl.
    assert (E : filter is_status_pull acts = []).
    { clear Ha. induction Hf as [|a l Ha _ IH]; [reflexivity|].
      destruct a; simpl; try contradiction; exact IH. }
    rewrite E. simpl. lia.
Qed.

Lemma telemetry_first_pull_after_one_period_witness :
  telemetry_pulls (run (repeat Tick 799) running) = 0 /\
  telemetry_pulls (run (repeat Tick 800) running) = 1 /\
  telemetry_pulls (run (repeat Tick 1600) running) = 2.
Proof.
  destruct (@telemetry_first_pull_after_one_period submitted
              submitted_reachable eq_refl) as (_ & H & _).
  destruct (telemetry_timer running) as [t|] eqn:Ht; [|discriminate].
  destruct (H (StatusSettled (status_of true)) t Ht) as (_ & _ & _ & Hk).
  unfold running. rewrite !Hk. repeat split.
Defined.

(** *** Further properties of the page *)

Section More.
Import ConsoleVocabulary SelectionTree.

(** A handler whose result still matches the inspector: the step records
    what it did and stores the new cells. *)
Lemma step_sets (w : World) (iv : IngestView.State) (e : Event) :
  view w = Some iv -> runs_handler e = true ->
  stream_synced (fst (dispatch e iv)) ->
  step e w =
  mkWorld (now w) (next_handle w) (actions w ++ snd (dispatch e iv))
    (Some (fst (dispatch e iv))).
Proof.
  intros Hiv He Hy. rewrite (@step_handler w iv e Hiv He). unfold commit.
  now rewrite render_synced.
Qed.

Lemma tick_actions (w : World) :
  exists acts,
    added w (tick w) acts /\
    Forall (fun a => a = Fetch GetIngestStatus \/ a = Fetch GetInspectionFrames) acts.
Proof.
  unfold added, tick. destruct (view w) as [iv|]; simpl.
  - destruct (Nat.leb (due (IngestView.poller iv)) (S (now w)));
      destruct (IngestView.inspector iv) as [[r f [ti|]]|]; simpl;
      try destruct (Nat.leb (due ti) (S (now w))); simpl;
      eexists; (split; [reflexivity|]);
      repeat (apply Forall_cons; [auto|]); apply Forall_nil.
  - exists []. rewrite app_nil_r. split; [reflexivity | apply Forall_nil].
Qed.

(** What a step may add to the record: timer calls, the two pulls, and
    what the handler of the event did. *)
Lemma step_actions (P : Action -> Prop) (w : World) (e : Event) :
  (forall h d, P (SetInterval h d)) -> (forall h, P (ClearInterval h)) ->
  P (Fetch GetIngestStatus) -> P (Fetch GetInspectionFrames) ->
  (forall iv, view w = Some iv -> Forall P (snd (dispatch e iv))) ->
  (view w = None -> Forall P (late_actions e)) ->
  exists acts, added w (step e w) acts /\ Forall P acts.
Proof.
  intros Hset Hclear Hst Htl Hd Hlate.
  assert (Htimer : forall acts,
            Forall (fun a => match a with
                             | SetInterval _ _ | ClearInterval _ => True
                             | _ => False
                             end) acts -> Forall P acts).
  { intros acts H. eapply Forall_impl; [|exact H].
    intros [ | | | |]; simpl; intros; auto; contradiction. }
  assert (Htick : exists acts, added w (tick w) acts /\ Forall P acts).
  { destruct (tick_actions w) as (acts & Ha & Hf). exists acts.
    split; [exact Ha|]. eapply Forall_impl; [|exact Hf].
    simpl. now intros a [-> | ->]. }
  unfold step. destruct (view w) as [iv|] eqn:Hiv.
  - destruct (runs_handler e) eqn:Hh.
    + assert (E : match e with
                  | Mount _ => w
                  | Unmount => unmount w iv
                  | Tick => tick w
                  | _ => commit w (dispatch e iv)
                  end = commit w (dispatch e iv)) by now destruct e.
      rewrite E. unfold commit.
      destruct (render_actions
                  (mkWorld (now w) (next_handle w)
                     (actions w ++ snd (dispatch e iv)) (view w))
                  (fst (dispatch e iv))) as (acts & Ha & Hf).
      unfold added in *. simpl in Ha.
      exists (snd (dispatch e iv) ++ acts). rewrite Ha, app_assoc.
      split; [reflexivity|]. apply Forall_app. split; auto.
    + destruct e; try discriminate.
      * exists []. unfold added. now rewrite app_nil_r.
      * unfold unmount, added; simpl. eexists; split; [reflexivity|].
        apply Forall_cons; [auto|].
        destruct (IngestView.inspector iv) as [ts|]; [|constructor].
        unfold ThoughtStream.cleanup.
        destruct (ThoughtStream.interval ts); repeat constructor; auto.
      * exact Htick.
  - destruct e; try (exists []; unfold added; now rewrite app_nil_r);
      try (eexists; split; [reflexivity | now apply Hlate]);
      [|exact Htick].
    unfold mount, render, added; simpl. rewrite app_nil_r.
    eexists; split; [reflexivity|].
    repeat constructor; auto.
Qed.

Lemma rootPath_not_empty (iv : IngestView.State) :
  IngestView.rootPath iv <> "".
Proof.
  unfold IngestView.rootPath.
  destruct (trim (IngestView.targetPath iv) =? "") eqn:E; [discriminate|].
  now apply String.eqb_neq.
Qed.

Lemma handleStartIngest_well_formed (iv : IngestView.State) :
  Forall well_formed (IngestView.handleStartIngest iv).
Proof.
  unfold IngestView.handleStartIngest.
  destruct (IngestView.activeDB iv) as [db|]; [|repeat constructor].
  destruct (db =? "") eqn:Hdb; [repeat constructor|].
  destruct (IngestView.tree iv) as [t|]; [|constructor].
  destruct (Nat.eqb (List.length (extractCheckedFiles t)) 0) eqn:Hn;
    [constructor|].
  repeat constructor.
  - now apply String.eqb_neq.
  - apply rootPath_not_empty.
  - intros E. rewrite E in Hn. discriminate.
Qed.

Lemma dispatch_well_formed (e : Event) (iv : IngestView.State) :
  Forall well_formed (snd (dispatch e iv)).
Proof.
  destruct e; simpl; try constructor;
    try apply handleStartIngest_well_formed;
    unfold IngestView.poll_settled, IngestView.handleScan,
      IngestView.handleScan_settled, IngestView.handleStartIngest_settled;
    repeat match goal with
      | |- context [match ?x with _ => _ end] => destruct x
      end; simpl; repeat constructor.
Qed.

(** X6. The start button and the start handler agree but for one test.
    When the button is enabled, a press submits exactly one request, for
    the active knowledge base, the trimmed target path (or "." for a blank
    one), the files checked at that moment and the chosen model.  And
    whenever the handler submits, the button is disabled only if the
    snapshot says a job is running: that is the one condition the handler
    itself does not test.  The path is trimmed as [String.prototype.trim]
    does it, so a path of blanks and no-break spaces goes out as ".". *)
Theorem start_button_matches_handler (iv : IngestView.State) :
  (IngestView.isStartDisabled iv = false ->
   exists db,
     IngestView.activeDB iv = Some db /\ db <> "" /\
     IngestView.selection iv <> [] /\
     IngestView.handleStartIngest iv =
     [Fetch (ExecuteIngest db (IngestView.rootPath iv) (IngestView.selection iv)
               (IngestView.llmModel iv))]) /\
  (existsb is_submission (IngestView.handleStartIngest iv) = true ->
   IngestView.isStartDisabled iv = is_running (IngestView.status iv)) /\
  (IngestView.rootPath iv =
   if trim (IngestView.targetPath iv) =? "" then "."
   else trim (IngestView.targetPath iv)) /\
  IngestView.rootPath
    (IngestView.setTargetPath (" " ++ nbsp ++ " ")%string iv) = ".".
Proof.
  split; [|split; [|split; [reflexivity | now destruct iv]]];
    revert iv; intros iv;
    unfold IngestView.isStartDisabled, IngestView.handleStartIngest,
      IngestView.selection, IngestView.noActiveDB;
    (destruct (IngestView.activeDB iv) as [db|];
     [|try rewrite orb_true_r; simpl; discriminate]);
    (destruct (db =? "") eqn:Hdb;
     [try rewrite orb_true_r; simpl; discriminate|]);
    (destruct (IngestView.tree iv) as [t|]; [|simpl; discriminate]);
    (destruct (Nat.eqb (List.length (extractCheckedFiles t)) 0) eqn:Hn;
     [simpl; discriminate|]);
    simpl; rewrite ?orb_false_r.
  - intros _. exists db. repeat split.
    + now apply String.eqb_neq.
    + intros E. rewrite E in Hn. discriminate.
  - reflexivity.
Qed.

Lemma start_button_matches_handler_witness :
  option_map IngestView.handleStartIngest (view staged) =
  Some [Fetch (ExecuteIngest "kb" "." ["a.py"; "subdir/b.py"] "none")] /\
  option_map IngestView.handleStartIngest
    (view (step (EditTargetPath (nbsp ++ "/src " ++ nbsp)%string) staged)) =
  Some [Fetch (ExecuteIngest "kb" "/src" ["a.py"; "subdir/b.py"] "none")].
Proof.
  split.
  - destruct (view staged) as [iv|] eqn:Hiv; [|discriminate].
    destruct (@start_button_matches_handler iv) as [H _].
    vm_compute in Hiv. injection Hiv as <-.
    destruct (H eq_refl) as (db & Hdb & _ & _ & Hreq).
    injection Hdb as <-. simpl. rewrite Hreq. reflexivity.
  - destruct (view (step (EditTargetPath (nbsp ++ "/src " ++ nbsp)%string) staged))
      as [iv|] eqn:Hiv; [|discriminate].
    destruct (@start_button_matches_handler iv) as [H _].
    vm_compute in Hiv. injection Hiv as <-.
    destruct (H eq_refl) as (db & Hdb & _ & _ & Hreq).
    injection Hdb as <-. simpl. rewrite Hreq. reflexivity.
Defined.

(** X7. The page never submits an ill-formed job: in every reachable
    world, each job-start request on record names a non-empty knowledge
    base, a non-empty root path and at least one file. *)
Theorem submissions_are_well_formed (w : World) (db p m : string)
    (files : list string) :
  reachable w ->
  In (Fetch (ExecuteIngest db p files m)) (actions w) ->
  db <> "" /\ p <> "" /\ files <> [].
Proof.
  intros Hr Hin.
  assert (H : Forall well_formed (actions w)).
  { clear Hin. induction Hr as [|w e _ IH]; [constructor|].
    destruct (@step_actions well_formed w e) as (acts & Ha & Hf);
      simpl; auto.
    - intros iv _. apply dispatch_well_formed.
    - intros _. now apply late_actions_sat.
    - unfold added in Ha. rewrite Ha. apply Forall_app. now split. }
  rewrite Forall_forall in H. exact (H _ Hin).
Qed.

Lemma submissions_are_well_formed_witness :
  "kb" <> "" /\ "." <> "" /\ ["a.py"; "subdir/b.py"] <> [].
Proof.
  apply (@submissions_are_well_formed submitted "kb" "." "none"
           ["a.py"; "subdir/b.py"] submitted_reachable).
  vm_compute. auto.
Defined.

(** X8. A job start the server refuses is surfaced with the server's own
    words: on an error response whose body holds a non-empty [detail], the
    alert reads "Ingest Error: " followed by that detail; when [detail] is
    missing or empty it reads "Ingest Error: Ingest failed".  Nothing else
    changes; in particular the inspector is not opened. *)
Theorem refused_start_shows_server_detail (w : World) (iv : IngestView.State)
    (r : Response Api.IngestBody) (body : Api.IngestBody) :
  reachable w -> view w = Some iv ->
  ok r = false -> json r = Resolved body ->
  step (IngestSettled (Resolved r)) w =
  mkWorld (now w) (next_handle w)
    (actions w ++
     [Alert ("Ingest Error: " ++
             match Api.detail body with
             | Some d => if d =? "" then "Ingest failed" else d
             | None => "Ingest failed"
             end)])
    (Some iv).
Proof.
  intros Hr Hiv Hok Hbody.
  apply step_records; auto using reachable_wf.
  simpl. now rewrite Hok, Hbody.
Qed.

Lemma refused_start_shows_server_detail_witness :
  step (IngestSettled (refused "KB is locked")) submitted =
  mkWorld (now submitted) (next_handle submitted)
    (actions submitted ++ [Alert "Ingest Error: KB is locked"])
    (view submitted).
Proof.
  destruct (view submitted) as [iv|] eqn:Hiv; [|discriminate].
  exact (@refused_start_shows_server_detail submitted iv
           (mkResponse false (Resolved (Api.mkIngestBody (Some "KB is locked"))))
           (Api.mkIngestBody (Some "KB is locked"))
           submitted_reachable Hiv eq_refl eq_refl).
Defined.

Lemma stream_synced_setTree (t : option FileNode) (iv : IngestView.State) :
  stream_synced iv -> stream_synced (IngestView.setTree t iv).
Proof. now destruct iv. Qed.

Lemma stream_synced_setLoadingScan (b : bool) (iv : IngestView.State) :
  stream_synced iv -> stream_synced (IngestView.setLoadingScan b iv).
Proof. now destruct iv. Qed.

Lemma wf_synced (w : World) (iv : IngestView.State) :
  wf w -> view w = Some iv -> stream_synced iv.
Proof. intros [_ Hv] Hiv. rewrite Hiv in Hv. tauto. Qed.

(** X9. A scan that fails, because the request is rejected, the body
    cannot be read or the server answers with an error status, keeps the
    tree with all its check marks, shows one alert "Scan failed: ..." and
    clears the busy flag.  A scan that succeeds with a tree replaces the
    tree wholesale, so the selection is that of the new tree and earlier
    toggles are gone; one that succeeds without a tree keeps the old one.
    In every case the busy flag is cleared and no request is issued. *)
Theorem scan_outcome (w : World) (iv : IngestView.State)
    (res : Fetched Api.TreeResponse) :
  reachable w -> view w = Some iv ->
  match Api.scanPath res with
  | Rejected e =>
      step (ScanSettled res) w =
      mkWorld (now w) (next_handle w)
        (actions w ++ [Alert ("Scan failed: " ++ error_toString e)])
        (Some (IngestView.setLoadingScan false iv))
  | Resolved body =>
      exists iv',
        step (ScanSettled res) w =
        mkWorld (now w) (next_handle w) (actions w) (Some iv') /\
        IngestView.loadingScan iv' = false /\
        match Api.tree body with
        | Some t => IngestView.tree iv' = Some t /\
                    IngestView.selection iv' = extractCheckedFiles t
        | None => IngestView.tree iv' = IngestView.tree iv
        end
  end.
Proof.
  intros Hr Hiv. pose proof (wf_synced (reachable_wf Hr) Hiv) as Hy.
  pose proof (@step_sets w iv (ScanSettled res) Hiv eq_refl) as H.
  simpl in H. unfold IngestView.handleScan_settled in H.
  destruct (Api.scanPath res) as [body|e].
  - destruct (Api.tree body) as [t|]; simpl in H.
    + rewrite H, app_nil_r;
        [|now apply stream_synced_setLoadingScan, stream_synced_setTree].
      eexists; split; [reflexivity|]. destruct iv; repeat split.
    + rewrite H, app_nil_r; [|now apply stream_synced_setLoadingScan].
      eexists; split; [reflexivity|]. destruct iv; repeat split.
  - simpl in H. apply H. now apply stream_synced_setLoadingScan.
Qed.

Lemma scan_outcome_witness :
  filter is_alert
    (actions (step (ScanSettled (Resolved (mkResponse false (Rejected (Error "not read"))))) staged))
  = [Alert "Scan failed: Error: Scan failed"] /\
  option_map IngestView.tree
    (view (step (ScanSettled (Resolved (mkResponse false (Rejected (Error "not read"))))) staged))
  = Some (Some root).
Proof.
  destruct (view staged) as [iv|] eqn:Hiv; [|discriminate].
  pose proof (@scan_outcome staged iv
                (Resolved (mkResponse false (Rejected (Error "not read"))))
                staged_reachable Hiv) as H.
  simpl in H. rewrite H.
  vm_compute in Hiv. injection Hiv as <-. split; reflexivity.
Defined.

(** X5. Ticking the checkbox of a node that is in the tree sets the flag
    of that node and of everything below it to the new value and keeps
    their other fields; the remaining cells of the view are untouched.
    Without a tree the handler does nothing. *)
Theorem checkbox_sets_its_subtree (iv : IngestView.State) (t n : FileNode)
    (pos : list nat) (b : bool) :
  IngestView.tree iv = Some t -> node_at pos t = Some n ->
  IngestView.handleToggleCheck n b iv =
    IngestView.setTree (Some (updateNodeChecked t (path n) b)) iv /\
  forall pos' m,
    node_at (pos ++ pos') t = Some m ->
    exists m',
      node_at (pos ++ pos') (updateNodeChecked t (path n) b) = Some m' /\
      checked m' = b /\ same_node_data m m'.
Proof.
  intros Ht Hn. split.
  - unfold IngestView.handleToggleCheck. now rewrite Ht.
  - intros pos' m Hm.
    pose proof (SelectionTreeProps.updateNodeChecked_node_at (path n) b t
                  (pos ++ pos')) as H.
    rewrite Hm in H. destruct H as (m' & H1 & H2 & H3 & _).
    rewrite (SelectionTreeProps.within_below pos pos' t Hn) in H3.
    exists m'. auto.
Qed.

Lemma checkbox_sets_its_subtree_witness :
  option_map checked
    (node_at [1; 0] (updateNodeChecked root (path subdir) false)) = Some false.
Proof.
  destruct (view staged) as [iv|] eqn:Hiv; [|discriminate].
  assert (Ht : IngestView.tree iv = Some root)
    by (vm_compute in Hiv; injection Hiv as <-; reflexivity).
  destruct (@checkbox_sets_its_subtree iv root subdir [1] false Ht eq_refl)
    as [_ H].
  destruct (H [0] b_py eq_refl) as (m' & H1 & H2 & _).
  simpl app in H1. rewrite H1. simpl. now rewrite H2.
Defined.

Lemma dispatch_activeDB (e : Event) (iv : IngestView.State) :
  IngestView.activeDB (fst (dispatch e iv)) =
  match e with
  | SetActiveDB db => db
  | _ => IngestView.activeDB iv
  end.
Proof. dispatch_cases e iv. Qed.

(** The knowledge base of the view after a step: the one it is mounted
    with, the one its prop is set to, or the one it had. *)
Lemma step_activeDB (w : World) (e : Event) (iv' : IngestView.State) :
  view (step e w) = Some iv' ->
  match view w, e with
  | None, Mount db => IngestView.activeDB iv' = db
  | None, _ => False
  | Some iv, SetActiveDB db => IngestView.activeDB iv' = db
  | Some iv, _ => IngestView.activeDB iv' = IngestView.activeDB iv
  end.
Proof.
  destruct (view w) as [iv|] eqn:Hiv.
  - destruct (runs_handler e) eqn:Hh.
    + rewrite (@step_handler w iv e Hiv Hh).
      destruct (commit_view w (dispatch e iv)) as [i Hi]. rewrite Hi.
      intros E; injection E as <-.
      pose proof (dispatch_activeDB e iv) as H.
      destruct (fst (dispatch e iv)); simpl in *.
      destruct e; try discriminate; exact H.
    + destruct e; try discriminate; unfold step; rewrite Hiv.
      * rewrite Hiv. now intros E; injection E as <-.
      * discriminate.
      * destruct (tick_view w Hiv) as (i & p & Hv & _). rewrite Hv.
        intros E; injection E as <-. now destruct iv.
  - unfold step. rewrite Hiv.
    destruct e; try (rewrite Hiv; discriminate);
      try (unfold record; cbn [view]; rewrite Hiv; discriminate).
    + unfold mount.
      match goal with
      | |- view (render ?w0 ?s) = _ -> _ =>
          destruct (render_view w0 s) as [i Hi]; rewrite Hi
      end.
      now intros E; injection E as <-.
    + unfold tick. rewrite Hiv. discriminate.
Qed.

Lemma dispatch_no_kb_alert (e : Event) (iv : IngestView.State) :
  IngestView.noActiveDB iv = false ->
  Forall (fun a => a <> kb_alert) (snd (dispatch e iv)).
Proof.
  unfold IngestView.noActiveDB, kb_alert. intros Hdb.
  destruct e; simpl; try constructor;
    unfold IngestView.poll_settled, IngestView.handleScan,
      IngestView.handleScan_settled, IngestView.handleStartIngest_settled,
      IngestView.handleStartIngest;
    repeat match goal with
      | |- context [match ?x with _ => _ end] => destruct x eqn:?
      | |- context [if ?x then _ else _] => destruct x eqn:?
      end; try discriminate;
    repeat (apply Forall_cons; [discriminate|]); apply Forall_nil.
Qed.

Lemma late_no_kb_alert (e : Event) :
  Forall (fun a => a <> kb_alert) (late_actions e).
Proof.
  unfold kb_alert.
  destruct e; simpl; try constructor;
    match goal with
    | |- context [match ?x with _ => _ end] => destruct x
    end; repeat (apply Forall_cons; [discriminate|]); apply Forall_nil.
Qed.

(** X10. Under [App], which mounts the staging view only with a non-empty
    knowledge base and only ever sets its prop to one, the alert "Please
    select a Knowledge Base first!" is never shown: the first guard of the
    start handler cannot fire. *)
Theorem kb_alert_unreachable_under_app (es : list Event) :
  forallb from_app es = true ->
  ~ In kb_alert (actions (run es initial)).
Proof.
  intros Hes.
  assert (Hinv : forall es w,
            forallb from_app es = true ->
            (forall iv, view w = Some iv -> IngestView.noActiveDB iv = false) ->
            Forall (fun a => a <> kb_alert) (actions w) ->
            Forall (fun a => a <> kb_alert) (actions (run es w))).
  { clear es Hes. induction es as [|e es IH]; intros w Hes Hv Ha; [exact Ha|].
    simpl in Hes. apply andb_true_iff in Hes as [He Hes].
    change (run (e :: es) w) with (run es (step e w)).
    apply IH; [exact Hes | |].
    - intros iv' Hiv'. pose proof (step_activeDB w e Hiv') as H.
      unfold IngestView.noActiveDB.
      destruct (view w) as [iv|] eqn:Hiv.
      + specialize (Hv iv eq_refl). unfold IngestView.noActiveDB in Hv.
        destruct e; simpl in He; rewrite H; try exact Hv.
        destruct db as [name|]; [|discriminate].
        now apply negb_true_iff.
      + destruct e; try contradiction. simpl in He. rewrite H.
        destruct db as [name|]; [|discriminate].
        now apply negb_true_iff.
    - destruct (@step_actions (fun a => a <> kb_alert) w e)
        as (acts & Hadd & Hf); try discriminate.
      + intros iv Hiv. apply dispatch_no_kb_alert. now apply Hv.
      + intros _. apply late_no_kb_alert.
      + unfold added in Hadd. rewrite Hadd. apply Forall_app. now split. }
  specialize (Hinv es initial Hes ltac:(discriminate) ltac:(constructor)).
  rewrite Forall_forall in Hinv. intros Hin. now apply (Hinv _ Hin).
Qed.

Lemma kb_alert_unreachable_under_app_witness :
  ~ In kb_alert
      (actions (run [Mount (Some "kb"); ClickStart; SetActiveDB (Some "notes");
                     ClickScan; ClickStart] initial)).
Proof.
  apply (@kb_alert_unreachable_under_app
           [Mount (Some "kb"); ClickStart; SetActiveDB (Some "notes");
            ClickScan; ClickStart]).
  reflexivity.
Defined.

(** With no view on the page a step records what a late answer still
    does, and nothing else. *)
Lemma step_unmounted (w : World) (e : Event) :
  view w = None -> is_mount e = false ->
  view (step e w) = None /\ actions (step e w) = actions w ++ late_actions e.
Proof.
  intros Hv He. unfold step. rewrite Hv.
  destruct e; try discriminate; unfold record, tick; rewrite ?Hv;
    cbn [view actions late_actions]; rewrite ?app_nil_r;
    (split; [assumption || reflexivity | reflexivity]).
Qed.

Lemma run_unmounted (es : list Event) :
  forall w, view w = None ->
    forallb (fun e => negb (is_mount e)) es = true ->
    view (run es w) = None /\
    actions (run es w) = actions w ++ flat_map late_actions es.
Proof.
  induction es as [|e es IH]; intros w Hv Hes.
  - simpl. now rewrite app_nil_r.
  - simpl in Hes. apply andb_true_iff in Hes as [He Hes].
    apply negb_true_iff in He.
    change (run (e :: es) w) with (run es (step e w)).
    destruct (step_unmounted w e Hv He) as [H1 H2].
    destruct (IH _ H1 Hes) as [H3 H4].
    split; [exact H3|]. rewrite H4, H2. cbn [flat_map]. now rewrite app_assoc.
Qed.

(** X11. Unmounting the view releases both timers: [clearInterval] is
    called on the handle of the status interval and then on the handle of
    the telemetry interval if one is live, and nothing else is done.  From
    then on, until the view is mounted again, the page issues no request
    and makes no timer call, whatever settles and however long one waits:
    all that is still recorded is what the [catch] blocks of the handlers
    of the view that is gone do when a request of theirs fails,
    [console.error("Polling failed", e)], [alert("Scan failed: ..")] and
    [alert("Ingest Error: ..")], one for each such answer and in the order
    of the answers. *)
Theorem unmount_releases_both_timers (w : World) (iv : IngestView.State) :
  view w = Some iv ->
  view (step Unmount w) = None /\
  added w (step Unmount w)
    (ClearInterval (handle (IngestView.poller iv)) ::
     match telemetry_timer w with
     | Some t => [ClearInterval (handle t)]
     | None => []
     end) /\
  forall es, forallb (fun e => negb (is_mount e)) es = true ->
    view (run es (step Unmount w)) = None /\
    added (step Unmount w) (run es (step Unmount w)) (flat_map late_actions es) /\
    Forall (fun a => match a with
                     | Alert _ | ConsoleError _ _ => True
                     | _ => False
                     end) (flat_map late_actions es).
Proof.
  intros Hiv.
  assert (Hv : view (step Unmount w) = None)
    by (unfold step; now rewrite Hiv).
  split; [exact Hv|]. split.
  - unfold step, added, unmount, telemetry_timer, stream. rewrite Hiv.
    cbn [actions app]. f_equal. f_equal.
    destruct (IngestView.inspector iv) as [ts|]; [|reflexivity].
    unfold ThoughtStream.cleanup. now destruct (ThoughtStream.interval ts).
  - intros es Hes.
    destruct (run_unmounted es _ Hv Hes) as [H1 H2].
    split; [exact H1|]. split; [exact H2|].
    apply Forall_flat_map. apply Forall_forall. intros e _.
    apply late_actions_cases.
Qed.

Lemma unmount_releases_both_timers_witness :
  actions (step Unmount running) =
    actions running ++ [ClearInterval 1; ClearInterval 2] /\
  actions (run (StatusSettled (offline IngestStatus) ::
                repeat Tick 100 ++
                [FramesSettled (batch [frame 0]);
                 IngestSettled (refused "busy")])
             (step Unmount running))
  = actions (step Unmount running)
    ++ [ConsoleError "Polling failed" (mkJsError "TypeError" "Failed to fetch");
        Alert "Ingest Error: busy"].
Proof.
  destruct (view running) as [iv|] eqn:Hiv; [|discriminate].
  destruct (@unmount_releases_both_timers running iv Hiv) as (_ & Hc & H).
  split.
  - unfold added in Hc. rewrite Hc.
    vm_compute in Hiv. injection Hiv as <-. reflexivity.
  - destruct (H (StatusSettled (offline IngestStatus) ::
                 repeat Tick 100 ++
                 [FramesSettled (batch [frame 0]);
                  IngestSettled (refused "busy")]) eq_refl) as (_ & Ha & _).
    unfold added in Ha. rewrite Ha. f_equal.
Defined.

Lemma timer_calls_no_status_pull (acts : list Action) :
  Forall (fun a => match a with
                   | SetInterval _ _ | ClearInterval _ => True
                   | _ => False
                   end) acts ->
  filter is_status_pull acts = [].
Proof.
  induction 1 as [|a l Ha _ IH]; [reflexivity|].
  destruct a; simpl; try contradiction; exact IH.
Qed.

Lemma dispatch_no_status_pull (e : Event) (iv : IngestView.State) :
  filter is_status_pull (snd (dispatch e iv)) = [].
Proof.
  pose proof (dispatch_actions e iv) as H.
  induction H as [|a l Ha _ IH]; [reflexivity|].
  destruct a as [[| | |]| | | |]; simpl; try exact IH; contradiction.
Qed.

(** An event that is neither the passing of time nor the unmount leaves
    the status interval and the count of status pulls as they are. *)
Lemma step_status (w : World) (iv : IngestView.State) (e : Event) :
  view w = Some iv -> e <> Tick -> e <> Unmount ->
  now (step e w) = now w /\
  status_pulls (step e w) = status_pulls w /\
  exists iv', view (step e w) = Some iv' /\
              IngestView.poller iv' = IngestView.poller iv.
Proof.
  intros Hiv Ht Hu. destruct (runs_handler e) eqn:Hh.
  - rewrite (@step_handler w iv e Hiv Hh). unfold commit.
    set (w1 := mkWorld (now w) (next_handle w)
                 (actions w ++ snd (dispatch e iv)) (view w)).
    split; [apply (render_now w1)|]. split.
    + destruct (render_actions w1 (fst (dispatch e iv))) as (acts & Ha & Hf).
      unfold status_pulls, added in *. rewrite Ha. simpl.
      rewrite !filter_app, !length_app, dispatch_no_status_pull,
        (timer_calls_no_status_pull Hf). simpl. lia.
    + destruct (render_view w1 (fst (dispatch e iv))) as [i Hi].
      rewrite Hi. eexists; split; [reflexivity|].
      pose proof (dispatch_poller e iv) as Hp.
      destruct (fst (dispatch e iv)); simpl in *. exact Hp.
  - destruct e; try discriminate; try congruence.
    unfold step. rewrite Hiv. repeat split. now exists iv.
Qed.

Lemma tick_status (w : World) (iv : IngestView.State) :
  view w = Some iv ->
  now (tick w) = S (now w) /\
  status_pulls (tick w) =
    status_pulls w + (if fires w (IngestView.poller iv) then 1 else 0) /\
  exists iv', view (tick w) = Some iv' /\
              IngestView.poller iv' =
              if fires w (IngestView.poller iv)
              then rearm (IngestView.poller iv) else IngestView.poller iv.
Proof.
  intros Hiv. unfold tick, status_pulls, fires. rewrite Hiv.
  destruct (Nat.leb (due (IngestView.poller iv)) (S (now w)));
    destruct (IngestView.inspector iv) as [[r f [ti|]]|];
    cbn [ThoughtStream.interval];
    try destruct (Nat.leb (due ti) (S (now w)));
    simpl; rewrite ?filter_app, ?length_app; simpl;
    (split; [reflexivity|]); (split; [lia|]);
    eexists; (split; [reflexivity|]); destruct iv; reflexivity.
Qed.

Lemma run_status (es : list Event) :
  forall w iv, wf w -> view w = Some iv ->
    forallb (fun e => negb (is_unmount e)) es = true ->
    status_pulls (run es w) =
    status_pulls w +
    (ticks es + 1000 - (due (IngestView.poller iv) - now w)) / 1000.
Proof.
  induction es as [|e es IH]; intros w iv Hwf Hiv Hes.
  - change (run [] w) with w. change (ticks []) with 0.
    destruct Hwf as [_ Hv]. rewrite Hiv in Hv.
    destruct Hv as ((_ & _ & Hlo & Hhi) & _).
    rewrite Nat.div_small by lia. lia.
  - simpl in Hes. apply andb_true_iff in Hes as [He Hes].
    change (run (e :: es) w) with (run es (step e w)).
    rewrite ticks_cons.
    pose proof Hwf as [_ Hv]. rewrite Hiv in Hv.
    destruct Hv as ((_ & Hper & Hlo & Hhi) & _).
    assert (Hdec : e = Tick \/ e <> Tick) by (destruct e; auto; right; discriminate).
    destruct Hdec as [-> | Ht].
    + rewrite step_tick.
      destruct (tick_status w Hiv) as (Hn & Hp & iv' & Hv' & Hpoll).
      rewrite (IH _ iv' (tick_wf Hwf) Hv' Hes), Hp, Hn, Hpoll.
      unfold fires.
      destruct (Nat.leb (due (IngestView.poller iv)) (S (now w))) eqn:Hd.
      * apply Nat.leb_le in Hd. unfold rearm; cbn [due]. rewrite Hper.
        replace (ticks es + 1000 - (due (IngestView.poller iv) + 1000 - S (now w)))
          with (ticks es) by lia.
        replace (1 + ticks es + 1000 - (due (IngestView.poller iv) - now w))
          with (ticks es + 1 * 1000) by lia.
        rewrite Nat.div_add by lia. lia.
      * apply Nat.leb_gt in Hd.
        replace (1 + ticks es + 1000 - (due (IngestView.poller iv) - now w))
          with (ticks es + 1000 - (due (IngestView.poller iv) - S (now w))) by lia.
        lia.
    + assert (Hu : e <> Unmount) by (destruct e; try discriminate; congruence).
      destruct (step_status w Hiv Ht Hu) as (Hn & Hp & iv' & Hv' & Hpoll).
      rewrite (IH _ iv' (step_wf e Hwf) Hv' Hes), Hp, Hn, Hpoll.
      assert (Hm : match e with Tick => 1 | _ => 0 end = 0)
        by (destruct e; congruence).
      rewrite Hm. reflexivity.
Qed.

(** X12. The status poller keeps its rate whatever happens: along any run
    in which the view is not unmounted, the number of status requests
    issued grows by exactly one for each full second on the interval's
    schedule.  It does not depend on whether a job is running, on whether
    earlier polls failed or are still unanswered, or on anything the user
    does. *)
Theorem status_poller_keeps_its_rate (w : World) (iv : IngestView.State)
    (es : list Event) :
  reachable w -> view w = Some iv ->
  forallb (fun e => negb (is_unmount e)) es = true ->
  status_pulls (run es w) =
  status_pulls w +
  (ticks es + 1000 - (due (IngestView.poller iv) - now w)) / 1000.
Proof.
  intros Hr Hiv Hes. apply run_status; auto using reachable_wf.
Qed.

Lemma status_poller_keeps_its_rate_witness :
  status_pulls
    (run (repeat Tick 1500 ++ [StatusSettled (offline IngestStatus)]
          ++ repeat Tick 1500 ++ [ClickInspector]) running)
  = status_pulls running + 3.
Proof.
  destruct (view running) as [iv|] eqn:Hiv; [|discriminate].
  rewrite (@status_poller_keeps_its_rate running iv
             (repeat Tick 1500 ++ [StatusSettled (offline IngestStatus)]
              ++ repeat Tick 1500 ++ [ClickInspector])
             running_reachable Hiv eq_refl).
  vm_compute in Hiv. injection Hiv as <-. reflexivity.
Defined.

(** X19. With the view mounted: a status pull whose request is rejected,
    or whose body cannot be read, leaves the world as it was but for one
    [console.error("Polling failed", e)], so the snapshot and the interval
    (handle, period and next firing time) are untouched; a pull that
    resolves, whatever the status of the response, makes its body the
    whole snapshot and keeps the interval.  The interval has period 1000
    and survives every event but the unmount; when its time has come the
    next millisecond issues a status request and re-arms it one second
    later, and the failed pull changes nothing in the number of requests
    issued afterwards.  Mounting the view issues the first status request
    in the mounting step itself, before any time passes. *)
Theorem status_pull_contract (w : World) (iv : IngestView.State)
    (res : Fetched IngestStatus) :
  reachable w -> view w = Some iv ->
  (forall e, Api.getIngestStatus res = Rejected e ->
     step (StatusSettled res) w =
     mkWorld (now w) (next_handle w)
       (actions w ++ [ConsoleError "Polling failed" e]) (Some iv)) /\
  (forall st, Api.getIngestStatus res = Resolved st ->
     exists iv', view (step (StatusSettled res) w) = Some iv' /\
                 IngestView.status iv' = st /\
                 IngestView.poller iv' = IngestView.poller iv) /\
  (forall b st, Api.getIngestStatus (Resolved (mkResponse b (Resolved st))) =
                Resolved st) /\
  period (IngestView.poller iv) = 1000 /\
  (forall ev, ev <> Unmount ->
     exists iv', view (step ev w) = Some iv' /\
                 handle (IngestView.poller iv') = handle (IngestView.poller iv) /\
                 period (IngestView.poller iv') = 1000) /\
  (fires w (IngestView.poller iv) = true ->
   status_pulls (step Tick w) = S (status_pulls w) /\
   exists iv', view (step Tick w) = Some iv' /\
               IngestView.poller iv' =
               mkTimer (handle (IngestView.poller iv)) 1000
                 (due (IngestView.poller iv) + 1000)) /\
  (forall es, forallb (fun e => negb (is_unmount e)) es = true ->
     status_pulls (run (StatusSettled res :: es) w) =
     status_pulls w +
     (ticks es + 1000 - (due (IngestView.poller iv) - now w)) / 1000) /\
  (forall w0 db, view w0 = None ->
     now (step (Mount db) w0) = now w0 /\
     added w0 (step (Mount db) w0)
       [Fetch GetIngestStatus; SetInterval (next_handle w0) 1000]).
Proof.
  intros Hr Hiv. pose proof (reachable_wf Hr) as Hwf.
  assert (Hper : period (IngestView.poller iv) = 1000).
  { destruct Hwf as [_ Hv]. rewrite Hiv in Hv.
    destruct Hv as ((_ & Hper & _) & _). exact Hper. }
  split; [|split; [|split; [|split; [|split; [|split; [|split]]]]]].
  - intros e He. apply step_records; auto. simpl. now rewrite He.
  - intros st Hst. unfold step. rewrite Hiv. unfold commit.
    destruct (render_view
                (mkWorld (now w) (next_handle w)
                   (actions w ++ snd (dispatch (StatusSettled res) iv)) (view w))
                (fst (dispatch (StatusSettled res) iv))) as [i Hi].
    rewrite Hi. eexists; split; [reflexivity|].
    simpl. rewrite Hst. simpl. destruct iv; split; reflexivity.
  - reflexivity.
  - exact Hper.
  - intros ev Hev.
    pose proof (step_wf ev Hwf) as [_ Hv'].
    destruct (@step_poller_handle w iv ev Hiv Hev) as (iv' & Hv & Hh). exists iv'.
    rewrite Hv in Hv'. destruct Hv' as ((_ & Hper' & _) & _).
    now repeat split.
  - intros Hf. rewrite step_tick.
    destruct (tick_status w Hiv) as (_ & Hp & iv' & Hv' & Hpoll).
    rewrite Hf in Hp, Hpoll. split; [lia|].
    exists iv'. split; [exact Hv'|]. rewrite Hpoll. unfold rearm.
    now rewrite Hper.
  - intros es Hes.
    rewrite (@run_status (StatusSettled res :: es) w iv Hwf Hiv Hes).
    now rewrite ticks_cons.
  - intros w0 db Hw0. unfold step, added. rewrite Hw0.
    unfold mount, render; simpl. now rewrite app_nil_r.
Qed.

Lemma status_pull_contract_witness :
  step (StatusSettled (offline IngestStatus)) running =
  mkWorld (now running) (next_handle running)
    (actions running
     ++ [ConsoleError "Polling failed" (mkJsError "TypeError" "Failed to fetch")])
    (view running) /\
  status_pulls
    (run (StatusSettled (offline IngestStatus) :: repeat Tick 3000) running) =
  status_pulls running + 3.
Proof.
  destruct (view running) as [iv|] eqn:Hiv; [|discriminate].
  destruct (@status_pull_contract running iv (offline IngestStatus)
              running_reachable Hiv) as (H & _ & _ & _ & _ & _ & Hrate & _).
  split; [exact (H _ eq_refl)|].
  rewrite (Hrate (repeat Tick 3000) eq_refl).
  vm_compute in Hiv. injection Hiv as <-. reflexivity.
Defined.

(** X13. Hiding the inspector pane unmounts the stream: its live interval,
    if any, is cancelled with [clearInterval] and its frames are dropped.
    Showing the pane again mounts a new stream with an empty buffer; the
    frames received before are not restored. *)
Theorem hiding_inspector_drops_frames (w : World) :
  reachable w -> stream w <> None ->
  stream (step ClickInspector w) = None /\
  (forall t, telemetry_timer w = Some t ->
     exists acts, added w (step ClickInspector w) acts /\
                  In (ClearInterval (handle t)) acts) /\
  stream (run [ClickInspector; ClickInspector] w) <> None /\
  buffer (run [ClickInspector; ClickInspector] w) = [].
Proof.
  intros Hr Hs. pose proof (reachable_wf Hr) as Hwf.
  destruct (view w) as [iv|] eqn:Hiv;
    [|unfold stream in Hs; rewrite Hiv in Hs; congruence].
  pose proof (wf_synced Hwf Hiv) as Hy. unfold stream_synced in Hy.
  assert (Hinsp : IngestView.inspector iv <> None)
    by (unfold stream in Hs; now rewrite Hiv in Hs).
  destruct (IngestView.inspector iv) as [ts|] eqn:Hi; [|congruence].
  destruct Hy as [Hshow _].
  assert (Hnone : stream (step ClickInspector w) = None).
  { destruct (stream (step ClickInspector w)) eqn:E; [|reflexivity].
    assert (E' : stream (step ClickInspector w) <> None) by congruence.
    rewrite (@step_handler w iv ClickInspector Hiv eq_refl) in E'.
    unfold commit in E'. apply render_stream in E'.
    rewrite dispatch_showInspector, Hshow in E'. discriminate. }
  split; [exact Hnone|]. split; [|split].
  - intros t Ht.
    destruct (@step_timer w ClickInspector Hwf ltac:(discriminate))
      as (_ & acts & Ha & Hc).
    exists acts. split; [exact Ha|].
    assert (Htn : telemetry_timer (step ClickInspector w) = None)
      by (unfold telemetry_timer; now rewrite Hnone).
    destruct Hc as [Hc | [[_ Hc] | (Hc & _)]]; [congruence | now apply Hc | congruence].
  - change (run [ClickInspector; ClickInspector] w)
      with (step ClickInspector (step ClickInspector w)).
    destruct (view (step ClickInspector w)) as [iv1|] eqn:Hiv1.
    + rewrite (@step_handler _ iv1 ClickInspector Hiv1 eq_refl).
      unfold commit. apply render_stream.
      rewrite dispatch_showInspector.
      pose proof (wf_synced (step_wf ClickInspector Hwf) Hiv1) as Hy1.
      unfold stream_synced in Hy1. unfold stream in Hnone.
      rewrite Hiv1 in Hnone. rewrite Hnone in Hy1. now rewrite Hy1.
    + exfalso.
      destruct (@step_poller_handle w iv ClickInspector Hiv ltac:(discriminate))
        as (iv' & Hv' & _). congruence.
  - change (run [ClickInspector; ClickInspector] w)
      with (step ClickInspector (step ClickInspector w)).
    now apply step_fresh_buffer.
Qed.

Lemma hiding_inspector_drops_frames_witness :
  buffer (run [FramesSettled (batch [frame 1; frame 2])] pulling)
  = [frame 1; frame 2] /\
  buffer (run [ClickInspector; ClickInspector]
            (run [FramesSettled (batch [frame 1; frame 2])] pulling)) = [].
Proof.
  split; [vm_compute; reflexivity|].
  assert (Hr : reachable (run [FramesSettled (batch [frame 1; frame 2])] pulling)).
  { apply reachable_run. exact pulling_reachable. }
  apply (@hiding_inspector_drops_frames _ Hr).
  vm_compute. discriminate.
Defined.

End More.

End ConsoleProps.

(** ** Strings, the frame header and the sidebar *)

Module TextProps.
Import Browser Text.

Lemma occurs_app (c : ascii) (s s' : string) :
  occurs c (s ++ s')%string = occurs c s || occurs c s'.
Proof.
  induction s as [|a s IH]; simpl; [reflexivity|].
  now rewrite IH, orb_assoc.
Qed.

Lemma pop_cons (x : string) (l : list string) :
  l <> [] -> pop (x :: l) = pop l.
Proof. destruct l; [congruence | reflexivity]. Qed.

(** [split] cuts at every separator: either there was none and the one
    piece is the string, or the string ends with a separator followed by
    the last piece; the last piece holds no separator. *)
Lemma split_last (c : ascii) (s : string) :
  exists base,
    pop (split c s) = Some base /\ occurs c base = false /\
    ((split c s = [base] /\ s = base) \/
     (2 <= List.length (split c s) /\
      exists d, s = (d ++ String c base)%string)).
Proof.
  induction s as [|a s IH].
  - exists EmptyString. simpl. repeat split. now left.
  - destruct IH as (base & Hpop & Hocc & Hshape). simpl.
    destruct (Ascii.eqb a c) eqn:Hac.
    + apply Ascii.eqb_eq in Hac. subst a.
      exists base. rewrite pop_cons by (destruct (split c s); [discriminate | congruence]).
      split; [exact Hpop|]. split; [exact Hocc|]. right.
      destruct Hshape as [[Hl Hs] | (Hl & d & Hs)].
      * rewrite Hl. split; [simpl; lia|]. exists EmptyString. now rewrite Hs.
      * split; [simpl; lia|]. exists (String c d). now rewrite Hs.
    + destruct Hshape as [[Hl Hs] | (Hl & d & Hs)].
      * rewrite Hl. exists (String a base). simpl. rewrite Hac, Hocc.
        repeat split. left. now rewrite Hs.
      * destruct (split c s) as [|h [|h' t]] eqn:Hsp; simpl in Hl; try lia.
        exists base. split; [exact Hpop|]. split; [exact Hocc|]. right.
        split; [simpl; lia|]. exists (String a d). now rewrite Hs.
Qed.

(** X14. The file name in a frame's header is always defined, holds no
    "/", and is the end of the frame's path: the path is the name itself
    when it holds no "/", and otherwise something ending in "/" followed
    by the name.  A path that ends in "/" gives the empty name. *)
Theorem fileName_is_last_segment (f : InspectionFrame) :
  exists base,
    FrameHeader.fileName f = Some base /\
    occurs "/" base = false /\
    (occurs "/" (file_path f) = false -> base = file_path f) /\
    (occurs "/" (file_path f) = true ->
     exists d, file_path f = (d ++ "/" ++ base)%string).
Proof.
  unfold FrameHeader.fileName.
  destruct (split_last "/" (file_path f)) as (base & Hpop & Hocc & Hshape).
  exists base. split; [exact Hpop|]. split; [exact Hocc|].
  destruct Hshape as [[_ Hs] | (_ & d & Hs)].
  - split; [now intros _|]. intros H. rewrite Hs in H. congruence.
  - split.
    + intros H. rewrite Hs, occurs_app in H. simpl in H.
      rewrite orb_true_r in H. discriminate.
    + intros _. now exists d.
Qed.

Example fileName_examples :
  FrameHeader.fileName (mkInspectionFrame "src/app/main.py" 3 "" [] [] None)
    = Some "main.py" /\
  FrameHeader.fileName (mkInspectionFrame "main.py" 3 "" [] [] None)
    = Some "main.py" /\
  FrameHeader.fileName (mkInspectionFrame "src/app/" 3 "" [] [] None)
    = Some "" /\
  FrameHeader.fileName (mkInspectionFrame "" 3 "" [] [] None) = Some "".
Proof. repeat split. Qed.

Lemma replace_absent (pat rep s : string) :
  includes pat s = false -> replace pat rep s = s.
Proof.
  induction s as [|a s IH]; simpl; intros H;
    apply orb_false_elim in H as [Hp Hi]; rewrite Hp; [reflexivity|].
  now rewrite IH.
Qed.

(** X15. The name the sidebar shows for an entry, and activates on a
    click, is the entry with its first ".db" taken out.  For a name that
    holds no ".db" this undoes the adding of the extension, and an entry
    without ".db" is shown as it is.  It is the first occurrence that
    goes, not the ending. *)
Theorem displayName_strips_first_db :
  (forall name, includes ".db" name = false ->
     Sidebar.displayName (name ++ ".db")%string = name) /\
  (forall db, includes ".db" db = false -> Sidebar.displayName db = db) /\
  Sidebar.displayName "old.dbs.db" = "olds.db" /\
  Sidebar.displayName ".db" = "".
Proof.
  unfold Sidebar.displayName. split; [|split; [|split; reflexivity]].
  - intros name. induction name as [|a n IH]; intros H; [reflexivity|].
    cbn [includes] in H. apply orb_false_elim in H as [Hp Hi].
    change (replace ".db" "" (String a n ++ ".db")%string)
      with (if startsWith ".db" (String a n ++ ".db")%string
            then ("" ++ drop 3 (String a n ++ ".db"))%string
            else String a (replace ".db" "" (n ++ ".db")%string)).
    assert (E : startsWith ".db" (String a n ++ ".db")%string = false).
    { cbn [startsWith append] in *.
      destruct (Ascii.eqb "." a); [|reflexivity]. cbn [andb] in *.
      destruct n as [|b n]; [reflexivity|]. cbn [startsWith append] in *.
      destruct (Ascii.eqb "d" b); [|reflexivity]. cbn [andb] in *.
      destruct n as [|c n]; [reflexivity|]. cbn [startsWith append] in *.
      destruct (Ascii.eqb "b" c); [discriminate | reflexivity]. }
    rewrite E. f_equal. now apply IH.
  - intros db. apply replace_absent.
Qed.

(** *** [trim] *)

Lemma trimStart_eq (s : string) :
  trimStart s = match skipSpace s with Some r => trimStart r | None => s end.
Proof.
  destruct s as [|a r]; [reflexivity|]. cbn [trimStart skipSpace].
  destruct (is_space a); [reflexivity|].
  destruct r as [|b r2]; [reflexivity|].
  destruct (is_space2 a b); [reflexivity|].
  destruct r2 as [|c r3]; [reflexivity|].
  now destruct (is_space3 a b c).
Qed.

Lemma skipSpace_length (s r : string) :
  skipSpace s = Some r -> String.length r < String.length s.
Proof.
  destruct s as [|a [|b [|c t]]]; cbn [skipSpace];
    repeat match goal with
      | |- context [if ?x then _ else _] => destruct x
      end; intros H; try discriminate; injection H as <-; simpl; lia.
Qed.

Lemma skipSpace_app (s r w : string) :
  skipSpace s = Some r -> skipSpace (s ++ w)%string = Some (r ++ w)%string.
Proof.
  destruct s as [|a [|b [|c t]]]; cbn [skipSpace append];
    repeat match goal with
      | |- context [if ?x then _ else _] => destruct x
      end; intros H; try discriminate; injection H as <-; try reflexivity.
Qed.

Lemma trimStart_length (s : string) :
  String.length (trimStart s) <= String.length s.
Proof.
  remember (String.length s) as n eqn:Hn.
  revert s Hn. induction n as [n IH] using lt_wf_ind. intros s Hn.
  rewrite trimStart_eq. destruct (skipSpace s) as [r|] eqn:Hs; [|lia].
  pose proof (@skipSpace_length _ _ Hs) as Hl.
  specialize (IH (String.length r) ltac:(lia) r eq_refl). lia.
Qed.

Lemma trimStart_fixed_iff (s : string) :
  trimStart s = s <-> skipSpace s = None.
Proof.
  rewrite trimStart_eq. destruct (skipSpace s) as [r|] eqn:Hs.
  - split; [|discriminate]. intros H.
    pose proof (@skipSpace_length _ _ Hs). pose proof (trimStart_length r).
    rewrite H in *. lia.
  - tauto.
Qed.

Lemma trimStart_idempotent (s : string) :
  trimStart (trimStart s) = trimStart s.
Proof.
  remember (String.length s) as n eqn:Hn.
  revert s Hn. induction n as [n IH] using lt_wf_ind. intros s Hn.
  rewrite (trimStart_eq s). destruct (skipSpace s) as [r|] eqn:Hs.
  - pose proof (@skipSpace_length _ _ Hs) as Hl.
    exact (IH (String.length r) ltac:(lia) r eq_refl).
  - now apply trimStart_fixed_iff.
Qed.

(** White space followed by white space is white space. *)
Lemma trimStart_app_blank (x w : string) :
  trimStart x = "" -> trimStart w = "" -> trimStart (x ++ w)%string = "".
Proof.
  remember (String.length x) as n eqn:Hn.
  revert x Hn. induction n as [n IH] using lt_wf_ind. intros x Hn Hx Hw.
  rewrite trimStart_eq in Hx. destruct (skipSpace x) as [r|] eqn:Hs.
  - rewrite trimStart_eq, (@skipSpace_app _ _ w Hs).
    pose proof (@skipSpace_length _ _ Hs) as Hl.
    exact (IH (String.length r) ltac:(lia) r eq_refl Hx Hw).
  - subst x. exact Hw.
Qed.

(** [trimEnd] cuts a string of white space off the end. *)
Lemma trimEnd_cut (s : string) :
  exists w, s = (trimEnd s ++ w)%string /\ trimStart w = "".
Proof.
  induction s as [|a r IH].
  - exists "". now split.
  - cbn [trimEnd]. destruct (trimStart (String a r) =? "") eqn:E.
    + apply String.eqb_eq in E. exists (String a r). now split.
    + destruct IH as (w & Hr & Hw). exists w. split; [|exact Hw].
      cbn [append]. now rewrite <- Hr.
Qed.

Lemma trimEnd_idempotent (s : string) : trimEnd (trimEnd s) = trimEnd s.
Proof.
  induction s as [|a r IH]; [reflexivity|].
  cbn [trimEnd]. destruct (trimStart (String a r) =? "") eqn:E; [reflexivity|].
  cbn [trimEnd]. rewrite IH.
  destruct (trimStart (String a (trimEnd r)) =? "") eqn:E'; [|reflexivity].
  apply String.eqb_eq in E'. apply String.eqb_neq in E. exfalso. apply E.
  destruct (trimEnd_cut r) as (w & Hr & Hw).
  rewrite Hr at 1.
  change (String a (trimEnd r ++ w)) with (String a (trimEnd r) ++ w)%string.
  now apply trimStart_app_blank.
Qed.

Lemma trimStart_trimEnd (s : string) :
  trimStart s = s -> trimStart (trimEnd s) = trimEnd s.
Proof.
  intros H. apply trimStart_fixed_iff. apply trimStart_fixed_iff in H.
  destruct (trimEnd_cut s) as (w & Hs & _).
  destruct (skipSpace (trimEnd s)) as [r|] eqn:E; [|reflexivity].
  apply (@skipSpace_app _ _ w) in E. rewrite <- Hs in E. congruence.
Qed.

(** [trim] leaves a trimmed string alone. *)
Lemma trim_idempotent (s : string) : trim (trim s) = trim s.
Proof.
  unfold trim.
  rewrite (@trimStart_trimEnd (trimStart s) (trimStart_idempotent s)).
  apply trimEnd_idempotent.
Qed.

(** The no-break space U+00A0, the byte order mark U+FEFF and the line
    separator U+2028 are stripped like the blank. *)
Lemma trim_unicode_space :
  let nbsp := String (ascii_of_nat 194) (String (ascii_of_nat 160) "") in
  let bom := String (ascii_of_nat 239) (String (ascii_of_nat 187)
               (String (ascii_of_nat 191) "")) in
  let ls := String (ascii_of_nat 226) (String (ascii_of_nat 128)
              (String (ascii_of_nat 168) "")) in
  trim (nbsp ++ " a b " ++ ls ++ nbsp)%string = "a b" /\
  trim (nbsp ++ bom ++ ls)%string = "".
Proof. split; reflexivity. Qed.

(** X16. The sidebar never asks for a knowledge base with a blank name:
    on a blank input [handleCreate] does nothing at all, and otherwise the
    one request it issues carries the input with the white space around
    it removed, a name that is not empty and that trimming leaves as it
    is.  Blank is what [String.prototype.trim] empties: a name made of
    no-break spaces is blank, and one wrapped in them goes out without
    them. *)
Theorem create_request_is_trimmed (s : Sidebar.State) :
  (trim (Sidebar.newDbName s) = "" -> Sidebar.handleCreate s = (s, [])) /\
  (trim (Sidebar.newDbName s) <> "" ->
   exists n,
     snd (Sidebar.handleCreate s) = [Sidebar.FetchCreate n] /\
     n = trim (Sidebar.newDbName s) /\ n <> "" /\ trim n = n /\
     Sidebar.loading (fst (Sidebar.handleCreate s)) = true) /\
  snd (Sidebar.handleCreate
         (Sidebar.mkState (Sidebar.dbs s) (Scenario.nbsp ++ " ")%string
            (Sidebar.loading s))) = [] /\
  snd (Sidebar.handleCreate
         (Sidebar.mkState (Sidebar.dbs s)
            (Scenario.nbsp ++ "notes" ++ Scenario.nbsp)%string
            (Sidebar.loading s))) = [Sidebar.FetchCreate "notes"].
Proof.
  unfold Sidebar.handleCreate. split; [|split; [|split; reflexivity]].
  - intros H. now rewrite H.
  - intros H. destruct (trim (Sidebar.newDbName s) =? "") eqn:E.
    + apply String.eqb_eq in E. contradiction.
    + eexists. split; [reflexivity|]. repeat split; auto.
      apply trim_idempotent.
Qed.

(** X17. How a creation ends, for an input that is not blank.  If the
    creation fails, by a rejected request or an error status, the user
    gets the alert "Failed to create DB", the typed name stays in the
    input and the list is not fetched.  If it succeeds the input is
    cleared and the list is fetched.  When that request is rejected or
    its body cannot be read, the failure is only logged, never alerted,
    and the old list stays; when it is answered, the list in the body
    replaces the old one whatever the status of the response, an error
    status included, and nothing is logged: [listKBs] does not test
    [res.ok].  In every case the busy flag is off at the end. *)
Theorem create_flow_outcome (A : Type) (created : Fetched A)
    (listed : Fetched Sidebar.ListBody) (s : Sidebar.State) :
  trim (Sidebar.newDbName s) <> "" ->
  Sidebar.createFlow created listed s =
  match Sidebar.createKB created with
  | Rejected _ =>
      (Sidebar.mkState (Sidebar.dbs s) (Sidebar.newDbName s) false,
       [Sidebar.FetchCreate (trim (Sidebar.newDbName s));
        Sidebar.Alert "Failed to create DB"])
  | Resolved _ =>
      match listed with
      | Rejected _ | Resolved (mkResponse _ (Rejected _)) =>
          (Sidebar.mkState (Sidebar.dbs s) "" false,
           [Sidebar.FetchCreate (trim (Sidebar.newDbName s)); Sidebar.FetchList;
            Sidebar.ConsoleError "Failed to load DBs"])
      | Resolved (mkResponse _ (Resolved data)) =>
          (Sidebar.mkState (Sidebar.databases data) "" false,
           [Sidebar.FetchCreate (trim (Sidebar.newDbName s)); Sidebar.FetchList])
      end
  end.
Proof.
  intros H. unfold Sidebar.createFlow, Sidebar.handleCreate.
  destruct (trim (Sidebar.newDbName s) =? "") eqn:E;
    [apply String.eqb_eq in E; contradiction|].
  unfold Sidebar.handleCreate_created, Sidebar.handleCreate_refreshed,
    Sidebar.fetchDbs_settled.
  destruct (Sidebar.createKB created); simpl; [|reflexivity].
  destruct listed as [[b [data|e]]|e]; reflexivity.
Qed.

Lemma create_flow_outcome_witness :
  Sidebar.createFlow (Resolved (mkResponse false (Resolved tt)))
    (Resolved (mkResponse true (Resolved (Sidebar.mkListBody ["a.db"]))))
    (Sidebar.mkState ["a.db"] "  notes " true)
  = (Sidebar.mkState ["a.db"] "  notes " false,
     [Sidebar.FetchCreate "notes"; Sidebar.Alert "Failed to create DB"]) /\
  Sidebar.createFlow (Resolved (mkResponse true (Resolved tt)))
    (Resolved (mkResponse false (Resolved (Sidebar.mkListBody []))))
    (Sidebar.mkState ["a.db"] "  notes " true)
  = (Sidebar.mkState [] "" false,
     [Sidebar.FetchCreate "notes"; Sidebar.FetchList]).
Proof.
  split.
  - apply (@create_flow_outcome unit (Resolved (mkResponse false (Resolved tt)))
             (Resolved (mkResponse true (Resolved (Sidebar.mkListBody ["a.db"]))))
             (Sidebar.mkState ["a.db"] "  notes " true)).
    discriminate.
  - apply (@create_flow_outcome unit (Resolved (mkResponse true (Resolved tt)))
             (Resolved (mkResponse false (Resolved (Sidebar.mkListBody []))))
             (Sidebar.mkState ["a.db"] "  notes " true)).
    discriminate.
Defined.

End TextProps.

(** ** The explorer *)

Module ExplorerProps.
Import Browser ExplorerView.


End ExplorerProps.
